(** * Verification of the PDF reconstruction script

    Shallow embedding of [src/src/ultimate_final_fix.py]:
    - [PyStr]: the Python [str] operations the script relies on
      ([in], [strip], [join], [replace], and the two regular-expression
      searches of [get_modifications]);
    - [PyDict]: an insertion-ordered dictionary with string keys;
    - [Index]: [get_modifications];
    - [Subst]: [apply_modifications];
    - [Resolver]: the font and colour mapping of the span loop;
    - [Recon]: [reconstruct_with_exact_positions] as a program in a
      state-and-exception monad over the two document handles and the
      output page. *)

From Stdlib Require Import Ascii String.
From Stdlib Require Import List Bool Arith NArith ZArith QArith Lia.
Import ListNotations.

Local Open Scope nat_scope.
Local Open Scope list_scope.

(* ===================================================================== *)
(** ** Python strings *)
(* ===================================================================== *)

Module PyStr.

(** A Python [str] is a sequence of Unicode code points. *)
Definition char := N.
Definition str := list char.

(** String literals of the source, written as Rocq strings. *)
Definition lit (s : string) : str :=
  List.map N_of_ascii (list_ascii_of_string s).

Fixpoint str_eqb (a b : str) : bool :=
  match a, b with
  | [], [] => true
  | x :: a', y :: b' => N.eqb x y && str_eqb a' b'
  | _, _ => false
  end.

(** [t.startswith(p)]. *)
Fixpoint starts_with (p t : str) : bool :=
  match p, t with
  | [], _ => true
  | _ :: _, [] => false
  | x :: p', y :: t' => N.eqb x y && starts_with p' t'
  end.

(** [p in t]: [p] occurs in [t] as a contiguous substring. *)
Fixpoint contains (p t : str) : bool :=
  starts_with p t ||
  match t with
  | [] => false
  | _ :: t' => contains p t'
  end.

(** [Py_UNICODE_ISSPACE]: the code points that [str.strip()] removes and
    that [\s] matches in a [str] pattern. *)
Definition is_space (c : char) : bool :=
  ((9 <=? c) && (c <=? 13) || (28 <=? c) && (c <=? 32)
   || (c =? 133) || (c =? 160) || (c =? 5760)
   || (8192 <=? c) && (c <=? 8202)
   || (c =? 8232) || (c =? 8233) || (c =? 8239) || (c =? 8287)
   || (c =? 12288))%N.

Definition newline : char := 10%N.

Fixpoint lstrip (t : str) : str :=
  match t with
  | [] => []
  | c :: t' => if is_space c then lstrip t' else t
  end.

Definition rstrip (t : str) : str := rev (lstrip (rev t)).

(** [t.strip()]. *)
Definition strip (t : str) : str := rstrip (lstrip t).

(** [sep.join(parts)]. *)
Fixpoint join (sep : str) (parts : list str) : str :=
  match parts with
  | [] => []
  | [p] => p
  | p :: rest => p ++ sep ++ join sep rest
  end.

(** The scanning loop of [str.replace] for a non-empty [old]: [skip] is
    the number of characters of the current occurrence still to be
    passed over. *)
Fixpoint replace_from (old new : str) (skip : nat) (t : str) : str :=
  match t with
  | [] => []
  | c :: t' =>
      match skip with
      | S k => replace_from old new k t'
      | O =>
          if starts_with old t
          then new ++ replace_from old new (length old - 1) t'
          else c :: replace_from old new 0 t'
      end
  end.

(** [t.replace(old, new)].  With an empty [old] Python inserts [new]
    before every character and at the end. *)
Definition replace (t old new : str) : str :=
  match old with
  | [] => new ++ flat_map (fun c => c :: new) t
  | _ :: _ => replace_from old new 0 t
  end.

(** The longest prefix without a line feed: what a greedy [.+] or [.*]
    consumes. *)
Fixpoint dot_star (t : str) : str :=
  match t with
  | [] => []
  | c :: t' => if N.eqb c newline then [] else c :: dot_star t'
  end.

(** [(.+)] at the end of a pattern: at least one character. *)
Definition dot_plus (t : str) : option str :=
  match dot_star t with
  | [] => None
  | g => Some g
  end.

(** [\s*(.+)] by backtracking: the greedy [\s*] first tries to consume
    one more white-space character and gives it back when the rest of
    the pattern fails. *)
Fixpoint ws_then_group (t : str) : option str :=
  match t with
  | [] => dot_plus []
  | c :: t' =>
      if is_space c then
        match ws_then_group t' with
        | Some g => Some g
        | None => dot_plus t
        end
      else dot_plus t
  end.

(** The pattern [label\s*(.+)] anchored at the start of [t]. *)
Definition match_here (label t : str) : option str :=
  if starts_with label t then ws_then_group (skipn (length label) t)
  else None.

(** [re.search(label + r'\s*(.+)', t)]: the first position, from the
    left, where the pattern matches; the result is [group(1)]. *)
Fixpoint re_search (label t : str) : option str :=
  match match_here label t with
  | Some g => Some g
  | None =>
      match t with
      | [] => None
      | _ :: t' => re_search label t'
      end
  end.

End PyStr.

(* ===================================================================== *)
(** ** Python dictionaries with string keys *)
(* ===================================================================== *)

Module PyDict.
Import PyStr.

(** The items of a [dict], in insertion order. *)
Definition dict := list (str * str).

(** [d[k] = v]: a key already present keeps its position. *)
Fixpoint set (d : dict) (k v : str) : dict :=
  match d with
  | [] => [(k, v)]
  | (k', v') :: d' =>
      if str_eqb k' k then (k', v) :: d' else (k', v') :: set d' k v
  end.

(** [d.get(k)]. *)
Fixpoint get (d : dict) (k : str) : option str :=
  match d with
  | [] => None
  | (k', v') :: d' => if str_eqb k' k then Some v' else get d' k
  end.

Definition keys (d : dict) : list str := List.map fst d.

End PyDict.

(* ===================================================================== *)
(** ** [get_modifications] *)
(* ===================================================================== *)

Module Index.
Import PyStr PyDict.

Definition address_original : str :=
  lit "123 Sample Street, Example City, EX 12345".
Definition phone_original : str := lit "(555) 123-4567".
Definition email_original : str := lit "contact@example.com".
Definition lorem_ipsum : str := lit "Lorem ipsum".
Definition sample_text : str := lit "Sample text".

(** The body of the loop over [doc.paragraphs]; [paragraph] is
    [paragraph.text]. *)
Definition scan_paragraph (mappings : dict) (paragraph : str) : dict :=
  let text := strip paragraph in
  if contains (lit "Address:") text then
    match re_search (lit "Address:") text with
    | Some g => set mappings address_original (strip g)
    | None => mappings
    end
  else if contains (lit "Phone:") text then
    match re_search (lit "Phone:") text with
    | Some g => set mappings phone_original (strip g)
    | None => mappings
    end
  else if contains (lit "Email:") text then
    match re_search (lit "Email:") text with
    | Some g => set mappings email_original (strip g)
    | None => mappings
    end
  else mappings.

(** [get_modifications], as a function of the paragraph texts of
    [output/enhanced_modified.docx]. *)
Definition get_modifications (paragraphs : list str) : dict :=
  let mappings := fold_left scan_paragraph paragraphs [] in
  let modified_text := join (lit " ") paragraphs in
  if contains sample_text modified_text
     && negb (contains lorem_ipsum modified_text)
  then set mappings lorem_ipsum sample_text
  else mappings.

End Index.

(* ===================================================================== *)
(** ** [apply_modifications] *)
(* ===================================================================== *)

Module Subst.
Import PyStr PyDict.

(** The loop over [mappings.items()], threading [text]. *)
Definition apply_modifications (text : str) (mappings : dict) : str :=
  fold_left (fun text item => replace text (fst item) (snd item))
            mappings text.

End Subst.

(* ===================================================================== *)
(** ** Font and colour mapping *)
(* ===================================================================== *)

Module Resolver.
Import PyStr.

(** The three font names passed to [insert_text]: ["helvetica-bold"],
    ["helvetica-oblique"] and ["helvetica"]. *)
Inductive fontname := helvetica_bold | helvetica_oblique | helvetica.

(** The [if]/[elif]/[else] on [font_name]. *)
Definition map_font (font_name : str) : fontname :=
  if contains (lit "Bold") font_name then helvetica_bold
  else if contains (lit "Oblique") font_name then helvetica_oblique
  else helvetica.

(** An RGB triple with components in the unit interval. *)
Definition rgb := (Q * Q * Q)%type.

Definition dark_blue : rgb := (0 # 1, 0 # 1, 139 # 255).
Definition black : rgb := (0 # 1, 0 # 1, 0 # 1).

(** The [if color == 139] test; a span colour is an sRGB integer. *)
Definition convert_color (color : Z) : rgb :=
  if Z.eqb color 139 then dark_blue else black.

End Resolver.

(* ===================================================================== *)
(** ** [reconstruct_with_exact_positions] *)
(* ===================================================================== *)

Module Recon.
Import PyStr PyDict Index Subst Resolver.

(** *** The source document, as PyMuPDF presents it *)

(** [fitz.Rect]: coordinates are copied, never computed with. *)
Record Rect := mkRect { x0 : Q; y0 : Q; x1 : Q; y1 : Q }.

Definition Point := (Q * Q)%type.

(** [rect.tl]. *)
Definition tl (r : Rect) : Point := (x0 r, y0 r).

(** A span of [page.get_text("dict")]. *)
Record Span := mkSpan {
  text : str;
  bbox : Rect;
  font : str;
  size : Q;
  color : Z
}.

Record Line := mkLine { spans : list Span }.

(** A block; [lines] is [None] when the block has no ["lines"] key
    (an image block). *)
Record Block := mkBlock { lines : option (list Line) }.

Definition bytes := list Byte.byte.

(** An entry of [page.get_images(full=True)]; [img[0]] is the xref. *)
Record ImageItem := mkImageItem { xref : Z; name : str }.

(** A page of the source.  A field of type [option] is a call that can
    raise. *)
Record Page := mkPage {
  width : Q;
  height : Q;
  get_text : option (list Block);
  get_images : list ImageItem;
  get_image_rects : Z -> option (list Rect)
}.

Record Document := mkDocument {
  pages : list Page;
  extract_image : Z -> option bytes
}.

(** What the run finds outside the program: the two input files, and
    which calls on the output document succeed. *)
Record World := mkWorld {
  enhanced_modified_docx : option (list str);
  enhanced_sample_pdf : option Document;
  insert_text_ok : Point -> str -> bool;
  insert_image_ok : Rect -> bytes -> bool;
  save_ok : bool
}.

(** *** The output page and the run's state *)

Inductive Op :=
| InsertText (point : Point) (txt : str) (fontname : Resolver.fontname)
             (fontsize : Q) (color : rgb)
| InsertImage (rect : Rect) (stream : bytes).

Record State := mkState {
  original_open : bool;          (* [original_doc] is open *)
  new_open : bool;               (* [new_doc] is open *)
  page_size : option (Q * Q);    (* [new_page], once created *)
  content : list Op;             (* what was drawn on [new_page] *)
  extracted : list Z;            (* the calls of [extract_image] *)
  saved : option (list Op)       (* [output/ULTIMATE_FINAL_FIX.pdf] *)
}.

Definition initial : State :=
  mkState false false None [] [] None.

Inductive Exn :=
| FileNotFound | PageNotFound | TextError | ImageError | DrawError
| SaveError.

Inductive Result (A : Type) :=
| Ok (a : A)
| Raise (e : Exn).
Arguments Ok {A} a.
Arguments Raise {A} e.

(** A computation changes the state and returns or raises; the state
    it leaves behind is kept in both cases. *)
Definition M (A : Type) := State -> Result A * State.

Definition ret {A} (a : A) : M A := fun st => (Ok a, st).

Definition raise {A} (e : Exn) : M A := fun st => (Raise e, st).

Definition bind {A B} (c : M A) (k : A -> M B) : M B :=
  fun st =>
    match c st with
    | (Ok a, st') => k a st'
    | (Raise e, st') => (Raise e, st')
    end.

Notation "x <- c ;; k" := (bind c (fun x => k))
  (at level 61, c at next level, right associativity).
Notation "c ;; k" := (bind c (fun _ => k))
  (at level 61, right associativity).

(** A [for] loop whose body can raise. *)
Fixpoint for_each {A} (l : list A) (body : A -> M unit) : M unit :=
  match l with
  | [] => ret tt
  | a :: l' => body a ;; for_each l' body
  end.

Definition of_option {A} (o : option A) (e : Exn) : M A :=
  match o with
  | Some a => ret a
  | None => raise e
  end.

Definition update (f : State -> State) : M unit :=
  fun st => (Ok tt, f st).

(** *** The library calls *)

(** [fitz.open("samples/enhanced_sample.pdf")]. *)
Definition open_original (w : World) : M Document :=
  doc <- of_option (enhanced_sample_pdf w) FileNotFound ;;
  update (fun st => mkState true (new_open st) (page_size st)
                            (content st) (extracted st) (saved st)) ;;
  ret doc.

(** [original_doc[0]]. *)
Definition load_page (doc : Document) (n : nat) : M Page :=
  of_option (nth_error (pages doc) n) PageNotFound.

(** [fitz.open()]. *)
Definition open_new : M unit :=
  update (fun st => mkState (original_open st) true (page_size st)
                            (content st) (extracted st) (saved st)).

(** [new_doc.new_page(width=..., height=...)]. *)
Definition new_page (wd ht : Q) : M unit :=
  update (fun st => mkState (original_open st) (new_open st)
                            (Some (wd, ht)) (content st) (extracted st)
                            (saved st)).

Definition draw (op : Op) : M unit :=
  update (fun st => mkState (original_open st) (new_open st)
                            (page_size st) (content st ++ [op])
                            (extracted st) (saved st)).

(** [new_page.insert_text(point, txt, fontname=, fontsize=, color=)]. *)
Definition insert_text (w : World) (point : Point) (txt : str)
    (fn : fontname) (fontsize : Q) (c : rgb) : M unit :=
  if insert_text_ok w point txt
  then draw (InsertText point txt fn fontsize c)
  else raise DrawError.

(** [original_doc.extract_image(xref)["image"]]. *)
Definition extract (doc : Document) (x : Z) : M bytes :=
  update (fun st => mkState (original_open st) (new_open st)
                            (page_size st) (content st)
                            (extracted st ++ [x]) (saved st)) ;;
  of_option (extract_image doc x) ImageError.

(** [new_page.insert_image(rect, stream=image_bytes)]. *)
Definition insert_image (w : World) (rect : Rect) (stream : bytes)
    : M unit :=
  if insert_image_ok w rect stream
  then draw (InsertImage rect stream)
  else raise DrawError.

(** [new_doc.save("output/ULTIMATE_FINAL_FIX.pdf")]. *)
Definition save (w : World) : M unit :=
  if save_ok w
  then update (fun st => mkState (original_open st) (new_open st)
                                 (page_size st) (content st)
                                 (extracted st) (Some (content st)))
  else raise SaveError.

(** [original_doc.close()]. *)
Definition close_original : M unit :=
  update (fun st => mkState false (new_open st) (page_size st)
                            (content st) (extracted st) (saved st)).

(** [new_doc.close()]. *)
Definition close_new : M unit :=
  update (fun st => mkState (original_open st) false (page_size st)
                            (content st) (extracted st) (saved st)).

(** *** The program *)

(** [not original_text.strip()]. *)
Definition blank (original_text : str) : bool :=
  match strip original_text with
  | [] => true
  | _ :: _ => false
  end.

(** The body of the innermost text loop. *)
Definition process_span (w : World) (mappings : dict) (span : Span)
    : M unit :=
  let original_text := text span in
  if blank original_text then ret tt
  else
    let modified_text := apply_modifications original_text mappings in
    let rect := bbox span in
    let font_name := font span in
    let font_size := size span in
    let color := color span in
    let font := map_font font_name in
    let text_color := convert_color color in
    insert_text w (tl rect) modified_text font font_size text_color.

Definition process_block (w : World) (mappings : dict) (block : Block)
    : M unit :=
  match lines block with
  | Some ls =>
      for_each ls (fun line =>
        for_each (spans line) (process_span w mappings))
  | None => ret tt
  end.

(** The body of the loop over [image_list]. *)
Definition copy_image (w : World) (original_doc : Document)
    (original_page : Page) (img : ImageItem) : M unit :=
  image_bytes <- extract original_doc (xref img) ;;
  img_rects <- of_option (get_image_rects original_page (xref img))
                         ImageError ;;
  for_each img_rects (fun img_rect =>
    insert_image w img_rect image_bytes).

(** The calls to [print] are left out: they do not change the
    documents. *)
Definition reconstruct_with_exact_positions (w : World) : M unit :=
  paragraphs <- of_option (enhanced_modified_docx w) FileNotFound ;;
  let mappings := get_modifications paragraphs in
  original_doc <- open_original w ;;
  original_page <- load_page original_doc 0 ;;
  open_new ;;
  new_page (width original_page) (height original_page) ;;
  text_blocks <- of_option (get_text original_page) TextError ;;
  for_each text_blocks (process_block w mappings) ;;
  let image_list := get_images original_page in
  for_each image_list (copy_image w original_doc original_page) ;;
  save w ;;
  close_original ;;
  close_new.

End Recon.

(* ===================================================================== *)
(** ** What the claims speak of *)
(* ===================================================================== *)

Module Spec.
Import PyStr PyDict Index Subst Resolver Recon.

(** *** Substitution *)

(** [Segments old t parts]: [parts] are the pieces of [t] left when the
    occurrences of [old] are cut out from left to right, each cut being
    the first occurrence in what remains (so the cuts do not overlap,
    and the last piece has no occurrence). *)
Inductive Segments (old : str) : str -> list str -> Prop :=
| Seg_last (t : str) :
    contains old t = false -> Segments old t [t]
| Seg_cut (u rest : str) (parts : list str) :
    (forall i, i < length u ->
               starts_with old (skipn i (u ++ old ++ rest)) = false) ->
    Segments old rest parts ->
    Segments old (u ++ old ++ rest) (u :: parts).

(** Every non-overlapping occurrence of [old] in [t] replaced by [new].
    The empty string occurs before every character and at the end. *)
Definition ReplacedAll (old new t t' : str) : Prop :=
  match old with
  | [] => t' = new ++ flat_map (fun c => c :: new) t
  | _ :: _ => exists parts, Segments old t parts /\ t' = join new parts
  end.

(** The entries applied one after the other, in the order of the map,
    each to the result of the one before. *)
Inductive Substituted : str -> dict -> str -> Prop :=
| Sub_done (t : str) : Substituted t [] t
| Sub_step (t t' r old new : str) (rest : dict) :
    ReplacedAll old new t t' ->
    Substituted t' rest r ->
    Substituted t ((old, new) :: rest) r.

(** No key of the map occurs in the text. *)
Definition no_key_occurs (text : str) (mappings : dict) : Prop :=
  forall old new, In (old, new) mappings -> contains old text = false.

(** *** Labelled fields *)

Inductive Field := Address | Phone | Email.

Definition label (f : Field) : str :=
  match f with
  | Address => lit "Address:"
  | Phone => lit "Phone:"
  | Email => lit "Email:"
  end.

Definition original (f : Field) : str :=
  match f with
  | Address => address_original
  | Phone => phone_original
  | Email => email_original
  end.

(** The keys that a labelled field can add to the map. *)
Definition field_originals : list str :=
  [address_original; phone_original; email_original].

(** The fields tested before [f] in the [if]/[elif] chain. *)
Definition earlier (f : Field) : list Field :=
  match f with
  | Address => []
  | Phone => [Address]
  | Email => [Address; Phone]
  end.

(** [Recognized f paragraph value]: the trimmed record contains the
    label of [f] and of no field tested earlier; something follows the
    first occurrence of the label; [value] is what follows it once the
    white space after the label (line feeds included) is passed over,
    up to the next line feed or the end of the record, trimmed. *)
Definition Recognized (f : Field) (paragraph value : str) : Prop :=
  let text := strip paragraph in
  (forall g, In g (earlier f) -> contains (label g) text = false) /\
  exists before after,
    text = before ++ label f ++ after /\
    (forall i, i < length before ->
               starts_with (label f) (skipn i text) = false) /\
    after <> [] /\
    value = strip (dot_star (lstrip after)).

(** The record is recognised by a prefix match of the label. *)
Definition prefix_recognized (paragraph : str) : Prop :=
  exists f, starts_with (label f) (strip paragraph) = true.

(** The first label, in the order of the tests, that the text contains. *)
Definition classify (text : str) : option Field :=
  if contains (label Address) text then Some Address
  else if contains (label Phone) text then Some Phone
  else if contains (label Email) text then Some Email
  else None.

(** What one record contributes. *)
Definition recognize (paragraph : str) : option (Field * str) :=
  let text := strip paragraph in
  match classify text with
  | Some f =>
      match re_search (label f) text with
      | Some g => Some (f, strip g)
      | None => None
      end
  | None => None
  end.

(** *** Pages *)

Definition block_spans (b : Block) : list Span :=
  match lines b with
  | Some ls => flat_map spans ls
  | None => []
  end.

(** The spans of the text blocks, in reading order. *)
Definition all_spans (blocks : list Block) : list Span :=
  flat_map block_spans blocks.

Definition is_text (op : Op) : bool :=
  match op with
  | InsertText _ _ _ _ _ => true
  | InsertImage _ _ => false
  end.

Definition text_draws (ops : list Op) : list Op := filter is_text ops.

Definition image_draws (ops : list Op) : list Op :=
  filter (fun op => negb (is_text op)) ops.

(** The number of times [x] was passed to [extract_image]. *)
Definition extractions (x : Z) (st : State) : nat :=
  count_occ Z.eq_dec (extracted st) x.

(** The image with xref [x] is placed at [r] on the page. *)
Definition placed_at (p : Page) (x : Z) (r : Rect) : Prop :=
  exists rs, get_image_rects p x = Some rs /\ In r rs.

(** The run ended with both documents closed. *)
Definition released (st : State) : Prop :=
  original_open st = false /\ new_open st = false.

(** Some way of reading bounding boxes off the state a run ends in
    gives, for every run that returns with an empty map, the bounding
    boxes of the source's spans that are not blank. *)
Definition boxes_reproduced (boxes : State -> list Rect) : Prop :=
  forall (w : World) paragraphs doc p blocks st',
    enhanced_modified_docx w = Some paragraphs ->
    enhanced_sample_pdf w = Some doc ->
    nth_error (pages doc) 0 = Some p ->
    get_text p = Some blocks ->
    get_modifications paragraphs = [] ->
    reconstruct_with_exact_positions w initial = (Ok tt, st') ->
    boxes st' =
    List.map bbox (filter (fun s => negb (forallb is_space (text s)))
                          (all_spans blocks)).

(** The distinct images the page refers to. *)
Definition referenced (p : Page) : list Z :=
  nodup Z.eq_dec (List.map xref (get_images p)).

(** The placements of the page: each distinct image with each of the
    rectangles where it is shown. *)
Definition placements (p : Page) : list (Z * Rect) :=
  flat_map (fun x =>
              match get_image_rects p x with
              | Some rs => List.map (pair x) rs
              | None => []
              end)
           (referenced p).

(** The draw [op] puts the bytes of the placed image, as extracted from
    [doc], at the rectangle of the placement. *)
Definition replays (doc : Document) (pl : Z * Rect) (op : Op) : Prop :=
  exists image_bytes,
    extract_image doc (fst pl) = Some image_bytes /\
    op = InsertImage (snd pl) image_bytes.

(** The bytes and the rectangles of the image can be read. *)
Definition readable (doc : Document) (p : Page) (img : ImageItem) : Prop :=
  (exists image_bytes, extract_image doc (xref img) = Some image_bytes) /\
  (exists rs, get_image_rects p (xref img) = Some rs).

(** *** What the loops draw *)

Definition span_ops (mappings : dict) (s : Span) : list Op :=
  if blank (text s) then []
  else [InsertText (tl (bbox s))
                   (apply_modifications (text s) mappings)
                   (map_font (font s)) (size s)
                   (convert_color (color s))].

Definition text_ops (mappings : dict) (blocks : list Block) : list Op :=
  flat_map (span_ops mappings) (all_spans blocks).

Definition item_ops (doc : Document) (p : Page) (img : ImageItem)
    : list Op :=
  match extract_image doc (xref img), get_image_rects p (xref img) with
  | Some image_bytes, Some rs =>
      List.map (fun r => InsertImage r image_bytes) rs
  | _, _ => []
  end.

Definition image_ops (doc : Document) (p : Page) : list Op :=
  flat_map (item_ops doc p) (get_images p).

(** *** Reasoning about runs *)

(** [hoare P c Q E]: from a state where [P] holds, [c] ends in a state
    where [Q] holds of its result, or raises in a state where [E]
    holds. *)
Definition hoare {A} (P : State -> Prop) (c : M A)
    (Q : A -> State -> Prop) (E : State -> Prop) : Prop :=
  forall st, P st ->
    match c st with
    | (Ok a, st') => Q a st'
    | (Raise _, st') => E st'
    end.

(** Both documents are open, nothing is saved, and [ops] have been
    drawn after the extractions [xs]. *)
Definition Drawing (sz : Q * Q) (ops : list Op) (xs : list Z)
    (st : State) : Prop :=
  st = mkState true true (Some sz) ops xs None.

Definition both_open (st : State) : Prop :=
  original_open st = true /\ new_open st = true.

(** The source document gets opened: both input files are there. *)
Definition acquired_original (w : World) : bool :=
  match enhanced_modified_docx w, enhanced_sample_pdf w with
  | Some _, Some _ => true
  | _, _ => false
  end.

(** The output document gets opened: the source has a first page. *)
Definition acquired_new (w : World) : bool :=
  match enhanced_modified_docx w, enhanced_sample_pdf w with
  | Some _, Some doc =>
      match nth_error (pages doc) 0 with
      | Some _ => true
      | None => false
      end
  | _, _ => false
  end.

End Spec.

(* ===================================================================== *)
(** ** Sample documents *)
(* ===================================================================== *)

Module Samples.
Import PyStr PyDict Index Subst Resolver Recon Spec.

Definition R1 : Rect := mkRect (50 # 1) (400 # 1) (150 # 1) (500 # 1).
Definition R2 : Rect := mkRect (300 # 1) (400 # 1) (400 # 1) (500 # 1).

Definition title_span : Span :=
  mkSpan (lit "Enhanced Sample Document")
         (mkRect (50 # 1) (20 # 1) (300 # 1) (40 # 1))
         (lit "Helvetica-Bold") (18 # 1) 139.

Definition address_span : Span :=
  mkSpan address_original
         (mkRect (50 # 1) (50 # 1) (200 # 1) (70 # 1))
         (lit "Helvetica") (12 # 1) 0.

Definition blank_span : Span :=
  mkSpan (lit "   ")
         (mkRect (50 # 1) (80 # 1) (60 # 1) (90 # 1))
         (lit "Helvetica") (12 # 1) 0.

Definition sample_blocks : list Block :=
  [ mkBlock (Some [mkLine [title_span];
                   mkLine [address_span; blank_span]]);
    mkBlock None ].

Definition png : bytes := [Byte.x89; Byte.x50; Byte.x4e; Byte.x47].

(** One image, shown at two rectangles. *)
Definition sample_page : Page :=
  mkPage (595 # 1) (842 # 1) (Some sample_blocks)
         [mkImageItem 7 (lit "Im1")]
         (fun x => if Z.eqb x 7 then Some [R1; R2] else None).

Definition sample_doc : Document :=
  mkDocument [sample_page]
             (fun x => if Z.eqb x 7 then Some png else None).

(** The companion document changes the address. *)
Definition sample_world : World :=
  mkWorld (Some [lit "Address: 42 New Ave"]) (Some sample_doc)
          (fun _ _ => true) (fun _ _ => true) true.

(** The companion document has no recognised record. *)
Definition unedited_world : World :=
  mkWorld (Some [lit "Nothing to see"]) (Some sample_doc)
          (fun _ _ => true) (fun _ _ => true) true.

(** The source of [unedited_world] with the box of the address span
    stretched to the right and downwards. *)
Definition stretched_span : Span :=
  mkSpan address_original
         (mkRect (50 # 1) (50 # 1) (500 # 1) (90 # 1))
         (lit "Helvetica") (12 # 1) 0.

Definition stretched_blocks : list Block :=
  [ mkBlock (Some [mkLine [title_span];
                   mkLine [stretched_span; blank_span]]);
    mkBlock None ].

Definition stretched_page : Page :=
  mkPage (595 # 1) (842 # 1) (Some stretched_blocks)
         [mkImageItem 7 (lit "Im1")]
         (fun x => if Z.eqb x 7 then Some [R1; R2] else None).

Definition stretched_doc : Document :=
  mkDocument [stretched_page]
             (fun x => if Z.eqb x 7 then Some png else None).

Definition stretched_world : World :=
  mkWorld (Some [lit "Nothing to see"]) (Some stretched_doc)
          (fun _ _ => true) (fun _ _ => true) true.

(** The output file cannot be written. *)
Definition unwritable_world : World :=
  mkWorld (Some [lit "Address: 42 New Ave"]) (Some sample_doc)
          (fun _ _ => true) (fun _ _ => true) false.

(** The page lists the same image under two resource names; it is
    shown once. *)
Definition twice_page : Page :=
  mkPage (595 # 1) (842 # 1) (Some sample_blocks)
         [mkImageItem 7 (lit "Im1"); mkImageItem 7 (lit "Im2")]
         (fun x => if Z.eqb x 7 then Some [R1] else None).

Definition twice_doc : Document :=
  mkDocument [twice_page]
             (fun x => if Z.eqb x 7 then Some png else None).

Definition twice_world : World :=
  mkWorld (Some []) (Some twice_doc)
          (fun _ _ => true) (fun _ _ => true) true.

End Samples.

(* ===================================================================== *)
(** ** Failures and their causes *)
(* ===================================================================== *)

Module Diagnosis.
Import PyStr PyDict Index Subst Resolver Recon Spec.

(** [triple P c Q E]: like [hoare], with a condition on the state that
    depends on the exception raised. *)
Definition triple {A} (P : State -> Prop) (c : M A)
    (Q : A -> State -> Prop) (E : Exn -> State -> Prop) : Prop :=
  forall st, P st ->
    match c st with
    | (Ok a, st') => Q a st'
    | (Raise e, st') => E e st'
    end.

(** Both documents are open, nothing is saved, and [ops] have been
    drawn. *)
Definition Drawn (sz : Q * Q) (ops : list Op) (st : State) : Prop :=
  exists xs, st = mkState true true (Some sz) ops xs None.

(** Both documents are open, nothing is saved, and what has been drawn
    is a beginning of [full]. *)
Definition Partial (sz : Q * Q) (full : list Op) (st : State) : Prop :=
  exists ops rest, Drawn sz ops st /\ full = ops ++ rest.

(** The span is drawn and [insert_text] refuses it. *)
Definition span_fails (w : World) (mappings : dict) (s : Span) : Prop :=
  blank (text s) = false /\
  insert_text_ok w (tl (bbox s))
                 (apply_modifications (text s) mappings) = false.

(** [insert_image] refuses the image at one of its rectangles. *)
Definition image_refused (w : World) (doc : Document) (p : Page)
    (img : ImageItem) : Prop :=
  exists image_bytes rs r,
    extract_image doc (xref img) = Some image_bytes /\
    get_image_rects p (xref img) = Some rs /\
    In r rs /\
    insert_image_ok w r image_bytes = false.

(** Why copying the image raises [e]. *)
Definition image_fails (w : World) (doc : Document) (p : Page)
    (img : ImageItem) (e : Exn) : Prop :=
  (e = ImageError /\ ~ readable doc p img) \/
  (e = DrawError /\ image_refused w doc p img).

(** What must be the case outside the program for a run to raise [e]. *)
Definition Cause (w : World) (e : Exn) : Prop :=
  match e with
  | FileNotFound =>
      enhanced_modified_docx w = None \/ enhanced_sample_pdf w = None
  | PageNotFound =>
      exists doc, enhanced_sample_pdf w = Some doc /\ pages doc = []
  | TextError =>
      exists doc p,
        enhanced_sample_pdf w = Some doc /\
        nth_error (pages doc) 0 = Some p /\
        get_text p = None
  | ImageError =>
      exists doc p img,
        enhanced_sample_pdf w = Some doc /\
        nth_error (pages doc) 0 = Some p /\
        In img (get_images p) /\
        ~ readable doc p img
  | DrawError =>
      exists paragraphs doc p blocks,
        enhanced_modified_docx w = Some paragraphs /\
        enhanced_sample_pdf w = Some doc /\
        nth_error (pages doc) 0 = Some p /\
        get_text p = Some blocks /\
        ((exists s, In s (all_spans blocks) /\
                    span_fails w (get_modifications paragraphs) s) \/
         (exists img, In img (get_images p) /\
                      image_refused w doc p img))
  | SaveError => save_ok w = false
  end.

(** The documents a run that raises [e] leaves open. *)
Definition left_open (e : Exn) (st : State) : Prop :=
  match e with
  | FileNotFound => original_open st = false /\ new_open st = false
  | PageNotFound => original_open st = true /\ new_open st = false
  | _ => original_open st = true /\ new_open st = true
  end.

(** Every call on the output document succeeds for what this run
    passes to it. *)
Definition output_accepts (w : World) (mappings : dict) (doc : Document)
    (p : Page) (blocks : list Block) : Prop :=
  (forall s, In s (all_spans blocks) -> ~ span_fails w mappings s) /\
  (forall img, In img (get_images p) -> ~ image_refused w doc p img) /\
  save_ok w = true.

(** The placements of the page, entry by entry of its image list. *)
Definition listed_placements (p : Page) : list (Z * Rect) :=
  flat_map (fun x =>
              match get_image_rects p x with
              | Some rs => List.map (pair x) rs
              | None => []
              end)
           (List.map xref (get_images p)).

(** The values of a map. *)
Definition values (d : dict) : list str := List.map snd d.

End Diagnosis.

(* ===================================================================== *)
(** ** Facts about the string operations *)
(* ===================================================================== *)

Section StringFacts.
Import PyStr.

Lemma str_eqb_eq (a b : str) : str_eqb a b = true <-> a = b.
Proof.
  revert b; induction a as [|x a IH]; intros [|y b]; simpl;
    try (split; [discriminate | congruence]).
  - split; reflexivity.
  - rewrite andb_true_iff, N.eqb_eq, IH. split.
    + intros [-> ->]; reflexivity.
    + intros E; inversion E; split; reflexivity.
Qed.

Lemma str_eqb_refl (a : str) : str_eqb a a = true.
Proof. apply str_eqb_eq; reflexivity. Qed.

Lemma str_eqb_neq (a b : str) : str_eqb a b = false <-> a <> b.
Proof.
  rewrite <- str_eqb_eq. destruct (str_eqb a b); split; congruence.
Qed.

Lemma starts_with_app (p r : str) : starts_with p (p ++ r) = true.
Proof.
  induction p as [|x p IH]; simpl; [reflexivity|].
  rewrite N.eqb_refl; exact IH.
Qed.

Lemma starts_with_split (p t : str) :
  starts_with p t = true -> t = p ++ skipn (length p) t.
Proof.
  revert t; induction p as [|x p IH]; intros [|y t]; simpl;
    try reflexivity; try discriminate.
  rewrite andb_true_iff, N.eqb_eq. intros [-> H].
  f_equal; apply IH, H.
Qed.

Lemma starts_with_length (p t : str) :
  starts_with p t = true -> length p <= length t.
Proof.
  revert t; induction p as [|x p IH]; intros [|y t]; simpl;
    try discriminate; try lia.
  rewrite andb_true_iff. intros [_ H]. apply IH in H. lia.
Qed.

Lemma contains_cons (p : str) (c : char) (t : str) :
  contains p (c :: t) = starts_with p (c :: t) || contains p t.
Proof. reflexivity. Qed.

Lemma contains_nil (p : str) : contains p [] = starts_with p [].
Proof. simpl. apply orb_false_r. Qed.

(** [p in t] holds exactly when [p] starts at some index of [t]. *)
Lemma contains_iff (p t : str) :
  contains p t = true <->
  exists i, i <= length t /\ starts_with p (skipn i t) = true.
Proof.
  induction t as [|c t IH].
  - rewrite contains_nil. split.
    + intros H. exists 0. split; [simpl; lia | exact H].
    + intros [i [_ H]]. rewrite skipn_nil in H. exact H.
  - rewrite contains_cons, orb_true_iff, IH. split.
    + intros [H | [i [Hi H]]].
      * exists 0. split; [lia | exact H].
      * exists (S i). split; [simpl; lia | exact H].
    + intros [[|i] [Hi H]].
      * left; exact H.
      * right. exists i. split; [simpl in Hi; lia | exact H].
Qed.

Lemma contains_false_at (p t : str) (i : nat) :
  contains p t = false -> i <= length t ->
  starts_with p (skipn i t) = false.
Proof.
  intros H Hi. destruct (starts_with p (skipn i t)) eqn:E; [|reflexivity].
  assert (contains p t = true) by (apply contains_iff; eauto).
  congruence.
Qed.

Lemma contains_app (p u r : str) : contains p (u ++ p ++ r) = true.
Proof.
  apply contains_iff. exists (length u). split.
  - rewrite length_app. lia.
  - rewrite skipn_app, skipn_all, Nat.sub_diag. simpl.
    apply starts_with_app.
Qed.

(** The first occurrence, when there is one. *)
Lemma contains_first (p t : str) :
  contains p t = true ->
  exists u r, t = u ++ p ++ r /\
    forall i, i < length u -> starts_with p (skipn i t) = false.
Proof.
  induction t as [|c t IH].
  - rewrite contains_nil. intros H. exists [], [].
    destruct p; [|discriminate]. split; [reflexivity|].
    simpl; intros; lia.
  - rewrite contains_cons. destruct (starts_with p (c :: t)) eqn:E.
    + intros _. exists [], (skipn (length p) (c :: t)). split.
      * apply starts_with_split, E.
      * simpl; intros; lia.
    + simpl orb. intros H. destruct (IH H) as [u [r [-> Hu]]].
      exists (c :: u), r. split; [reflexivity|].
      intros [|i] Hi; [exact E|]. apply Hu. simpl in Hi; lia.
Qed.

Lemma app_same_length {A} (u u' v v' : list A) :
  length u = length u' -> u ++ v = u' ++ v' -> u = u' /\ v = v'.
Proof.
  revert u'; induction u as [|x u IH]; intros [|y u']; simpl;
    try discriminate.
  - intros _ E; split; [reflexivity | exact E].
  - intros L E. inversion E; subst.
    destruct (IH u') as [-> ->]; [lia | assumption | split; reflexivity].
Qed.

(** Two ways of cutting [t] at a first occurrence of [p] agree. *)
Lemma first_occurrence_unique (p u r u' r' : str) :
  u ++ p ++ r = u' ++ p ++ r' ->
  (forall i, i < length u ->
             starts_with p (skipn i (u ++ p ++ r)) = false) ->
  (forall i, i < length u' ->
             starts_with p (skipn i (u' ++ p ++ r')) = false) ->
  u = u' /\ r = r'.
Proof.
  intros E Hu Hu'.
  assert (L : length u = length u').
  { destruct (Nat.lt_trichotomy (length u) (length u')) as [H|[H|H]];
      [|exact H|].
    - specialize (Hu' _ H). rewrite <- E in Hu'.
      rewrite skipn_app, skipn_all, Nat.sub_diag in Hu'. simpl in Hu'.
      rewrite starts_with_app in Hu'. discriminate.
    - specialize (Hu _ H). rewrite E in Hu.
      rewrite skipn_app, skipn_all, Nat.sub_diag in Hu. simpl in Hu.
      rewrite starts_with_app in Hu. discriminate. }
  destruct (app_same_length _ _ _ _ L E) as [-> E'].
  apply app_inv_head in E'. split; congruence.
Qed.

End StringFacts.

(* ===================================================================== *)
(** ** [str.replace] and [apply_modifications] *)
(* ===================================================================== *)

Section ReplaceFacts.
Import PyStr PyDict Subst Spec.

Lemma replace_from_skip (old new : str) (k : nat) (t : str) :
  replace_from old new k t = replace_from old new 0 (skipn k t).
Proof.
  revert k; induction t as [|c t IH]; intros [|k]; try reflexivity.
  simpl. apply IH.
Qed.

(** The loop, one occurrence at a time. *)
Lemma replace_from_cons (old new : str) (c : char) (t : str) :
  old <> [] ->
  replace_from old new 0 (c :: t) =
  if starts_with old (c :: t)
  then new ++ replace_from old new 0 (skipn (length old) (c :: t))
  else c :: replace_from old new 0 t.
Proof.
  intros Hold. destruct old as [|x old]; [congruence|].
  cbn [replace_from]. destruct (starts_with (x :: old) (c :: t)).
  - rewrite replace_from_skip. simpl. rewrite Nat.sub_0_r. reflexivity.
  - reflexivity.
Qed.

Lemma replace_from_absent (old new t : str) :
  old <> [] -> contains old t = false -> replace_from old new 0 t = t.
Proof.
  intros Hold. induction t as [|c t IH]; [reflexivity|].
  rewrite contains_cons, orb_false_iff. intros [H1 H2].
  rewrite replace_from_cons, H1, IH; auto.
Qed.

Lemma replace_absent (t old new : str) :
  contains old t = false -> replace t old new = t.
Proof.
  destruct old as [|x old].
  - destruct t; discriminate.
  - intros H. apply replace_from_absent; [discriminate | exact H].
Qed.

Lemma join_cons_head (sep : str) (c : char) (u : str) (ps : list str) :
  join sep ((c :: u) :: ps) = c :: join sep (u :: ps).
Proof. destruct ps; reflexivity. Qed.

Lemma join_cons (sep u : str) (ps : list str) :
  ps <> [] -> join sep (u :: ps) = u ++ sep ++ join sep ps.
Proof. destruct ps; [congruence | reflexivity]. Qed.

Lemma Segments_nonempty (old t : str) (parts : list str) :
  Segments old t parts -> parts <> [].
Proof. intros H; inversion H; discriminate. Qed.

(** Gluing the pieces back with [old] gives the text. *)
Lemma Segments_join (old t : str) (parts : list str) :
  Segments old t parts -> join old parts = t.
Proof.
  induction 1 as [t H | u rest parts Hu Hs IH]; [reflexivity|].
  rewrite join_cons by (eapply Segments_nonempty; eauto).
  rewrite IH. reflexivity.
Qed.

(** The pieces are determined by the text. *)
Lemma Segments_unique (old t : str) (p1 p2 : list str) :
  Segments old t p1 -> Segments old t p2 -> p1 = p2.
Proof.
  intros H1; revert p2.
  induction H1 as [t H | u rest parts Hu Hs IH]; intros p2 H2.
  - inversion H2 as [t' H' | u' rest' parts' Hu' Hs' E]; subst;
      [reflexivity|].
    rewrite contains_app in H. discriminate.
  - inversion H2 as [t' H' | u' rest' parts' Hu' Hs' E]; subst.
    + rewrite contains_app in H'. discriminate.
    + destruct (first_occurrence_unique _ _ _ _ _ E Hu' Hu) as [-> ->].
      f_equal. apply IH, Hs'.
Qed.

Lemma Segments_cons (old : str) (c : char) (t : str) (parts : list str) :
  starts_with old (c :: t) = false ->
  Segments old t parts ->
  exists u ps, parts = u :: ps /\ Segments old (c :: t) ((c :: u) :: ps).
Proof.
  intros Hc H. inversion H as [t' H' | u rest ps Hu Hs E]; subst.
  - exists t, []. split; [reflexivity|]. apply Seg_last.
    rewrite contains_cons, Hc, H'. reflexivity.
  - exists u, ps. split; [reflexivity|].
    apply (Seg_cut old (c :: u) rest ps); [|exact Hs].
    intros [|i] Hi; [exact Hc|]. apply Hu. simpl in Hi; lia.
Qed.

(** The loop cuts the text into its segments and glues them with
    [new]. *)
Lemma replace_from_segments (old new : str) :
  old <> [] ->
  forall n t, length t <= n ->
    exists parts, Segments old t parts /\
                  replace_from old new 0 t = join new parts.
Proof.
  intros Hold. induction n as [|n IH]; intros t Hn.
  - destruct t; [|simpl in Hn; lia]. exists [[]]. split; [|reflexivity].
    apply Seg_last. destruct old; [congruence | reflexivity].
  - destruct t as [|c t].
    { exists [[]]. split; [|reflexivity].
      apply Seg_last. destruct old; [congruence | reflexivity]. }
    rewrite replace_from_cons by exact Hold.
    destruct (starts_with old (c :: t)) eqn:E.
    + pose proof (starts_with_split _ _ E) as Ht.
      set (rest := skipn (length old) (c :: t)) in *.
      assert (Hlen : length rest <= n).
      { apply (f_equal (@length _)) in Ht. rewrite length_app in Ht.
        destruct old; [congruence|]. simpl in *. lia. }
      destruct (IH rest Hlen) as [parts [Hs Hr]].
      exists ([] :: parts). split.
      * rewrite Ht. apply (Seg_cut old [] rest parts); [|exact Hs].
        simpl; intros; lia.
      * rewrite join_cons by (eapply Segments_nonempty; eauto).
        rewrite Hr. reflexivity.
    + assert (Hlen : length t <= n) by (simpl in Hn; lia).
      destruct (IH t Hlen) as [parts [Hs Hr]].
      destruct (Segments_cons _ _ _ _ E Hs) as [u [ps [-> Hs']]].
      exists ((c :: u) :: ps). split; [exact Hs'|].
      rewrite join_cons_head, Hr. reflexivity.
Qed.

Lemma replace_ReplacedAll (t old new : str) :
  ReplacedAll old new t (replace t old new).
Proof.
  destruct old as [|x old]; [reflexivity|].
  apply (replace_from_segments (x :: old) new) with (n := length t);
    [discriminate | lia].
Qed.

Lemma ReplacedAll_unique (old new t a b : str) :
  ReplacedAll old new t a -> ReplacedAll old new t b -> a = b.
Proof.
  destruct old as [|x old]; simpl.
  - congruence.
  - intros [p1 [H1 ->]] [p2 [H2 ->]].
    rewrite (Segments_unique _ _ _ _ H1 H2). reflexivity.
Qed.

Lemma apply_modifications_cons (text old new : str) (rest : dict) :
  apply_modifications text ((old, new) :: rest) =
  apply_modifications (replace text old new) rest.
Proof. reflexivity. Qed.

Lemma apply_modifications_Substituted (text : str) (mappings : dict) :
  Substituted text mappings (apply_modifications text mappings).
Proof.
  revert text; induction mappings as [|[old new] rest IH]; intros text.
  - apply Sub_done.
  - rewrite apply_modifications_cons.
    eapply Sub_step; [apply replace_ReplacedAll | apply IH].
Qed.

Lemma Substituted_unique (text : str) (mappings : dict) (a b : str) :
  Substituted text mappings a -> Substituted text mappings b -> a = b.
Proof.
  intros Ha; revert b.
  induction Ha as [t | t t' r old new rest Hr Hs IH]; intros b Hb.
  - inversion Hb; reflexivity.
  - inversion Hb as [| t0 t0' r0 old0 new0 rest0 Hr0 Hs0]; subst.
    rewrite (ReplacedAll_unique _ _ _ _ _ Hr0 Hr) in Hs0.
    apply IH, Hs0.
Qed.

Lemma apply_modifications_absent (text : str) (mappings : dict) :
  no_key_occurs text mappings -> apply_modifications text mappings = text.
Proof.
  induction mappings as [|[old new] rest IH]; intros H; [reflexivity|].
  rewrite apply_modifications_cons, replace_absent.
  - apply IH. intros o n Hin. apply (H o n). right; exact Hin.
  - apply (H old new). left; reflexivity.
Qed.

Lemma apply_modifications_empty (text : str) :
  apply_modifications text [] = text.
Proof. reflexivity. Qed.

End ReplaceFacts.

(* ===================================================================== *)
(** ** Trimming and the label pattern *)
(* ===================================================================== *)

Section StripFacts.
Import PyStr.

Lemma lstrip_head (t : str) :
  lstrip t = [] \/ exists c r, lstrip t = c :: r /\ is_space c = false.
Proof.
  induction t as [|c t IH]; [left; reflexivity|].
  simpl. destruct (is_space c) eqn:E; [exact IH|].
  right. exists c, t. split; [reflexivity | exact E].
Qed.

Lemma lstrip_nil_iff (t : str) :
  lstrip t = [] <-> forallb is_space t = true.
Proof.
  induction t as [|c t IH]; simpl; [split; reflexivity|].
  destruct (is_space c); simpl; [exact IH|].
  split; discriminate.
Qed.

Lemma lstrip_nonspace (c : char) (t : str) :
  is_space c = false -> lstrip (c :: t) = c :: t.
Proof. intros H; simpl; rewrite H; reflexivity. Qed.

(** Trimming on the left stops at the first character that is not
    white space. *)
Lemma lstrip_app_nonspace (x : str) (d : char) (y : str) :
  is_space d = false -> exists x', lstrip (x ++ d :: y) = x' ++ d :: y.
Proof.
  intros H. induction x as [|c x IH].
  - exists []. apply lstrip_nonspace, H.
  - simpl. destruct (is_space c); [exact IH|].
    exists (c :: x). reflexivity.
Qed.

Lemma rstrip_nil_iff (t : str) :
  rstrip t = [] <-> forallb is_space t = true.
Proof.
  unfold rstrip. rewrite forallb_forall.
  split.
  - intros H c Hc. apply (f_equal (@rev _)) in H.
    rewrite rev_involutive in H. simpl in H.
    apply lstrip_nil_iff in H. rewrite forallb_forall in H.
    apply H, in_rev. rewrite rev_involutive. exact Hc.
  - intros H.
    assert (E : lstrip (rev t) = []).
    { apply lstrip_nil_iff, forallb_forall. intros c Hc.
      apply H, in_rev, Hc. }
    rewrite E. reflexivity.
Qed.

(** A trimmed string is empty or ends with a character that is not
    white space. *)
Lemma strip_last (t : str) :
  strip t = [] \/ exists r c, strip t = r ++ [c] /\ is_space c = false.
Proof.
  unfold strip, rstrip.
  destruct (lstrip_head (rev (lstrip t))) as [E | [c [r [E H]]]];
    rewrite E.
  - left; reflexivity.
  - right. exists (rev r), c. split; [reflexivity | exact H].
Qed.

Lemma strip_nonempty (d : char) (g : str) :
  is_space d = false -> strip (d :: g) <> [].
Proof.
  intros H. unfold strip, rstrip. rewrite lstrip_nonspace by exact H.
  simpl rev.
  destruct (lstrip_app_nonspace (rev g) d [] H) as [x' E].
  rewrite E, rev_app_distr. simpl. discriminate.
Qed.

Lemma strip_nil_iff (t : str) :
  strip t = [] <-> forallb is_space t = true.
Proof.
  rewrite <- lstrip_nil_iff. split.
  - intros H. destruct (lstrip_head t) as [E | [c [r [E Hc]]]];
      [exact E|].
    unfold strip in H. rewrite E in H.
    change (rstrip (c :: r)) with (rev (lstrip (rev (c :: r)))) in H.
    exfalso. apply (strip_nonempty c r Hc).
    unfold strip. rewrite lstrip_nonspace by exact Hc. exact H.
  - intros H. unfold strip. rewrite H. reflexivity.
Qed.

Lemma not_space_not_newline (d : char) :
  is_space d = false -> N.eqb d newline = false.
Proof.
  intros H. destruct (N.eqb d newline) eqn:E; [|reflexivity].
  apply N.eqb_eq in E. subst d. discriminate.
Qed.

Lemma dot_star_head (d : char) (g : str) :
  is_space d = false -> dot_star (d :: g) = d :: dot_star g.
Proof.
  intros H. simpl. rewrite not_space_not_newline by exact H. reflexivity.
Qed.

(** After the label, in a text that does not end with white space, the
    greedy [\s*] takes all the white space and [(.+)] the rest of the
    line. *)
Lemma ws_then_group_trimmed (after : str) :
  (exists a c, after = a ++ [c] /\ is_space c = false) ->
  ws_then_group after = Some (dot_star (lstrip after)) /\
  exists d g, dot_star (lstrip after) = d :: g /\ is_space d = false.
Proof.
  induction after as [|x after IH]; intros [a [c [E Hc]]].
  - destruct a; discriminate.
  - simpl. destruct (is_space x) eqn:Hx.
    + assert (Hafter : exists a' c', after = a' ++ [c'] /\
                                    is_space c' = false).
      { destruct a as [|y a]; simpl in E; inversion E; subst.
        - congruence.
        - exists a, c. split; [reflexivity | exact Hc]. }
      destruct (IH Hafter) as [-> Hd]. split; [reflexivity | exact Hd].
    + unfold dot_plus. rewrite dot_star_head by exact Hx. split.
      * reflexivity.
      * exists x, (dot_star after). split; [reflexivity | exact Hx].
Qed.

Lemma match_here_short (label t : str) :
  length t < length label -> match_here label t = None.
Proof.
  intros H. unfold match_here.
  destruct (starts_with label t) eqn:E; [|reflexivity].
  apply starts_with_length in E. lia.
Qed.

Lemma re_search_short (label t : str) :
  length t < length label -> re_search label t = None.
Proof.
  induction t as [|c t IH]; intros H; simpl.
  - rewrite match_here_short by exact H. reflexivity.
  - rewrite match_here_short by exact H. apply IH. simpl in H; lia.
Qed.

(** The search passes over the positions where the label does not
    start. *)
Lemma re_search_skip (label before t : str) :
  (forall i, i < length before ->
             starts_with label (skipn i (before ++ t)) = false) ->
  re_search label (before ++ t) = re_search label t.
Proof.
  induction before as [|c before IH]; intros H; [reflexivity|].
  assert (H0 : starts_with label ((c :: before) ++ t) = false)
    by (apply (H 0); simpl; lia).
  cbn [app re_search] in *. unfold match_here at 1. rewrite H0.
  apply IH. intros i Hi. apply (H (S i)). simpl; lia.
Qed.

Lemma match_here_label (label after : str) :
  match_here label (label ++ after) = ws_then_group after.
Proof.
  unfold match_here. rewrite starts_with_app.
  rewrite skipn_app, skipn_all, Nat.sub_diag. reflexivity.
Qed.

Lemma re_search_found (label before after : str) :
  (forall i, i < length before ->
             starts_with label (skipn i (before ++ label ++ after)) = false) ->
  (exists a c, after = a ++ [c] /\ is_space c = false) ->
  re_search label (before ++ label ++ after) =
  Some (dot_star (lstrip after)).
Proof.
  intros H Hafter. rewrite re_search_skip by exact H.
  destruct (ws_then_group_trimmed after Hafter) as [E _].
  destruct (label ++ after) eqn:E'; simpl;
    rewrite <- E', match_here_label, E; reflexivity.
Qed.

Lemma re_search_at_end (label before : str) :
  label <> [] ->
  (forall i, i < length before ->
             starts_with label (skipn i (before ++ label)) = false) ->
  re_search label (before ++ label) = None.
Proof.
  intros Hl H. rewrite re_search_skip by exact H.
  destruct label as [|x l]; [congruence|].
  cbn [re_search].
  replace (match_here (x :: l) (x :: l)) with (@None str).
  - apply re_search_short. simpl; lia.
  - pose proof (match_here_label (x :: l) []) as E.
    rewrite app_nil_r in E. rewrite E. reflexivity.
Qed.

End StripFacts.

(* ===================================================================== *)
(** ** Dictionaries *)
(* ===================================================================== *)

Section DictFacts.
Import PyStr PyDict.

Lemma get_set_same (d : dict) (k v : str) : get (set d k v) k = Some v.
Proof.
  induction d as [|[k' v'] d IH]; simpl.
  - rewrite str_eqb_refl. reflexivity.
  - destruct (str_eqb k' k) eqn:E; simpl; rewrite E; [reflexivity | exact IH].
Qed.

Lemma get_set_other (d : dict) (k v k2 : str) :
  k <> k2 -> get (set d k v) k2 = get d k2.
Proof.
  intros Hk. induction d as [|[k' v'] d IH]; simpl.
  - apply str_eqb_neq in Hk. rewrite Hk. reflexivity.
  - destruct (str_eqb k' k) eqn:E; simpl.
    + apply str_eqb_eq in E. subst k'.
      apply str_eqb_neq in Hk. rewrite Hk. reflexivity.
    + rewrite IH. reflexivity.
Qed.

Lemma in_keys_set (d : dict) (k v k2 : str) :
  In k2 (keys (set d k v)) <-> k2 = k \/ In k2 (keys d).
Proof.
  induction d as [|[k' v'] d IH]; simpl.
  - intuition congruence.
  - destruct (str_eqb k' k) eqn:E; simpl.
    + apply str_eqb_eq in E. subst k'. intuition congruence.
    + rewrite IH. intuition congruence.
Qed.

Lemma NoDup_keys_set (d : dict) (k v : str) :
  NoDup (keys d) -> NoDup (keys (set d k v)).
Proof.
  induction d as [|[k' v'] d IH]; simpl; intros H.
  - constructor; [intros [] | constructor].
  - inversion H as [|? ? Hn Hd]; subst.
    destruct (str_eqb k' k) eqn:E; simpl.
    + constructor; assumption.
    + constructor; [|apply IH, Hd].
      intros Hin. apply in_keys_set in Hin. destruct Hin as [-> | Hin].
      * rewrite str_eqb_refl in E. discriminate.
      * exact (Hn Hin).
Qed.

Lemma get_None_iff (d : dict) (k : str) :
  get d k = None <-> ~ In k (keys d).
Proof.
  induction d as [|[k' v'] d IH]; simpl.
  - intuition.
  - destruct (str_eqb k' k) eqn:E.
    + apply str_eqb_eq in E. split; [discriminate | intuition].
    + apply str_eqb_neq in E. rewrite IH. intuition.
Qed.

(** With distinct keys, the items are what [get] returns. *)
Lemma in_items_get (d : dict) (k v : str) :
  NoDup (keys d) -> (In (k, v) d <-> get d k = Some v).
Proof.
  induction d as [|[k' v'] d IH]; simpl; intros H.
  - split; [intros [] | discriminate].
  - inversion H as [|? ? Hn Hd]; subst.
    destruct (str_eqb k' k) eqn:E.
    + apply str_eqb_eq in E. subst k'. split.
      * intros [E | Hin]; [congruence|].
        exfalso. apply Hn. apply (in_map fst) in Hin. exact Hin.
      * intros E; left; congruence.
    + apply str_eqb_neq in E. rewrite <- (IH Hd). split.
      * intros [E' | Hin]; [congruence | exact Hin].
      * intros Hin; right; exact Hin.
Qed.

End DictFacts.

(* ===================================================================== *)
(** ** The label recogniser *)
(* ===================================================================== *)

Section IndexFacts.
Import PyStr PyDict Index Spec.

Lemma label_nonempty (f : Field) : label f <> [].
Proof. destruct f; discriminate. Qed.

(** A record is scanned by recognising it. *)
Lemma scan_paragraph_recognize (mappings : dict) (p : str) :
  scan_paragraph mappings p =
  match recognize p with
  | Some (f, v) => set mappings (original f) v
  | None => mappings
  end.
Proof.
  unfold scan_paragraph, recognize, classify.
  change (label Address) with (lit "Address:").
  change (label Phone) with (lit "Phone:").
  change (label Email) with (lit "Email:").
  destruct (contains (lit "Address:") (strip p)).
  { change (label Address) with (lit "Address:").
    destruct (re_search (lit "Address:") (strip p)); reflexivity. }
  destruct (contains (lit "Phone:") (strip p)).
  { change (label Phone) with (lit "Phone:").
    destruct (re_search (lit "Phone:") (strip p)); reflexivity. }
  destruct (contains (lit "Email:") (strip p)).
  { change (label Email) with (lit "Email:").
    destruct (re_search (lit "Email:") (strip p)); reflexivity. }
  reflexivity.
Qed.

Lemma classify_Some (text : str) (f : Field) :
  classify text = Some f <->
  contains (label f) text = true /\
  forall g, In g (earlier f) -> contains (label g) text = false.
Proof.
  unfold classify.
  destruct (contains (label Address) text) eqn:Ea;
    [|destruct (contains (label Phone) text) eqn:Ep;
      [|destruct (contains (label Email) text) eqn:Ee]].
  - split.
    + intros E; inversion E; subst. split; [exact Ea | intros g []].
    + intros [Hf He]. destruct f; [reflexivity| |];
        rewrite (He Address) in Ea by (simpl; auto); discriminate.
  - split.
    + intros E; inversion E; subst. split; [exact Ep|].
      intros g [<- | []]. exact Ea.
    + intros [Hf He]. destruct f; [congruence | reflexivity |].
      rewrite (He Phone) in Ep by (simpl; auto). discriminate.
  - split.
    + intros E; inversion E; subst. split; [exact Ee|].
      intros g [<- | [<- | []]]; assumption.
    + intros [Hf He]. destruct f; [congruence | congruence | reflexivity].
  - split; [discriminate|].
    intros [Hf _]. destruct f; congruence.
Qed.

(** In a trimmed text, what follows a label ends with a character that
    is not white space. *)
Lemma after_label_trimmed (p before l after : str) :
  strip p = before ++ l ++ after -> after <> [] ->
  exists a c, after = a ++ [c] /\ is_space c = false.
Proof.
  intros E Hne.
  destruct (exists_last Hne) as [a [c ->]].
  exists a, c. split; [reflexivity|].
  destruct (strip_last p) as [E0 | [r [c' [E' Hc']]]].
  - rewrite E0 in E. destruct before; [destruct l|]; try discriminate.
    destruct a; discriminate.
  - rewrite E' in E.
    replace (before ++ l ++ a ++ [c]) with ((before ++ l ++ a) ++ [c]) in E
      by (rewrite <- !app_assoc; reflexivity).
    apply app_inj_tail in E. destruct E as [_ ->]. exact Hc'.
Qed.

(** The recogniser computes the relation of the specification. *)
Lemma recognize_Recognized (p : str) (f : Field) (v : str) :
  recognize p = Some (f, v) <-> Recognized f p v.
Proof.
  unfold recognize, Recognized. cbv zeta. split.
  - destruct (classify (strip p)) as [f'|] eqn:Ec; [|discriminate].
    destruct (re_search (label f') (strip p)) as [g|] eqn:Er;
      [|discriminate].
    intros E; inversion E; subst f' v; clear E.
    apply classify_Some in Ec. destruct Ec as [Hc He].
    split; [exact He|].
    destruct (contains_first _ _ Hc) as [before [after [Et Hfirst]]].
    exists before, after. split; [exact Et|]. split; [exact Hfirst|].
    destruct after as [|x after].
    + exfalso. rewrite Et in Er, Hfirst. rewrite app_nil_r in Er, Hfirst.
      rewrite re_search_at_end in Er; [discriminate | | exact Hfirst].
      apply label_nonempty.
    + split; [discriminate|].
      assert (Ha : exists a c, x :: after = a ++ [c] /\ is_space c = false)
        by (eapply after_label_trimmed; [exact Et | discriminate]).
      rewrite Et in Er, Hfirst.
      rewrite (re_search_found _ _ _ Hfirst Ha) in Er.
      inversion Er; reflexivity.
  - intros [He [before [after [Et [Hfirst [Hne ->]]]]]].
    assert (Hc : classify (strip p) = Some f).
    { apply classify_Some. split; [|exact He].
      rewrite Et. apply contains_app. }
    rewrite Hc.
    assert (Ha : exists a c, after = a ++ [c] /\ is_space c = false)
      by (eapply after_label_trimmed; eauto).
    rewrite Et in Hfirst |- *.
    rewrite (re_search_found _ _ _ Hfirst Ha). reflexivity.
Qed.

Lemma Recognized_nonempty (f : Field) (p v : str) :
  Recognized f p v -> v <> [].
Proof.
  intros [_ [before [after [Et [_ [Hne ->]]]]]].
  assert (Ha : exists a c, after = a ++ [c] /\ is_space c = false)
    by (eapply after_label_trimmed; eauto).
  destruct (ws_then_group_trimmed after Ha) as [_ [d [g [-> Hd]]]].
  apply strip_nonempty, Hd.
Qed.

Lemma not_Recognized_recognize (p : str) :
  (forall f v, ~ Recognized f p v) -> recognize p = None.
Proof.
  intros H. destruct (recognize p) as [[f v]|] eqn:E; [|reflexivity].
  apply recognize_Recognized in E. destruct (H f v E).
Qed.

End IndexFacts.

(* ===================================================================== *)
(** ** The map built from the companion document *)
(* ===================================================================== *)

Section MapFacts.
Import PyStr PyDict Index Spec.

Lemma original_in_fields (f : Field) : In (original f) field_originals.
Proof. destruct f; simpl; auto. Qed.

Lemma original_injective (f g : Field) : original f = original g -> f = g.
Proof.
  destruct f, g; intros H; try reflexivity;
    apply str_eqb_eq in H; vm_compute in H; discriminate.
Qed.

Lemma lorem_not_original (f : Field) : lorem_ipsum <> original f.
Proof.
  destruct f; intros H; apply str_eqb_eq in H; vm_compute in H;
    discriminate.
Qed.

Lemma lorem_not_in_fields : ~ In lorem_ipsum field_originals.
Proof.
  intros [H | [H | [H | []]]]; symmetry in H.
  - exact (lorem_not_original Address H).
  - exact (lorem_not_original Phone H).
  - exact (lorem_not_original Email H).
Qed.

Lemma keys_scan_paragraph (m : dict) (p k : str) :
  In k (keys (scan_paragraph m p)) ->
  In k (keys m) \/ In k field_originals.
Proof.
  rewrite scan_paragraph_recognize.
  destruct (recognize p) as [[f v]|]; [|auto].
  intros H. apply in_keys_set in H. destruct H as [-> | H]; [|auto].
  right. apply original_in_fields.
Qed.

Lemma NoDup_scan_paragraph (m : dict) (p : str) :
  NoDup (keys m) -> NoDup (keys (scan_paragraph m p)).
Proof.
  rewrite scan_paragraph_recognize.
  destruct (recognize p) as [[f v]|]; [|auto].
  apply NoDup_keys_set.
Qed.

Lemma keys_fold_scan (ps : list str) (m : dict) (k : str) :
  In k (keys (fold_left scan_paragraph ps m)) ->
  In k (keys m) \/ In k field_originals.
Proof.
  revert m; induction ps as [|p ps IH]; intros m; simpl; [auto|].
  intros H. destruct (IH _ H) as [H' | H']; [|auto].
  exact (keys_scan_paragraph _ _ _ H').
Qed.

Lemma NoDup_fold_scan (ps : list str) (m : dict) :
  NoDup (keys m) -> NoDup (keys (fold_left scan_paragraph ps m)).
Proof.
  revert m; induction ps as [|p ps IH]; intros m H; simpl; [exact H|].
  apply IH, NoDup_scan_paragraph, H.
Qed.

Lemma keys_get_modifications (ps : list str) (k : str) :
  In k (keys (get_modifications ps)) ->
  In k (field_originals ++ [lorem_ipsum]).
Proof.
  unfold get_modifications. cbv zeta. intros H. apply in_or_app.
  assert (Hf : forall k, In k (keys (fold_left scan_paragraph ps [])) ->
                         In k field_originals).
  { intros k' Hk'. destruct (keys_fold_scan _ _ _ Hk') as [[] | Hk]; exact Hk. }
  destruct (contains sample_text (join (lit " ") ps)
            && negb (contains lorem_ipsum (join (lit " ") ps))).
  - apply in_keys_set in H. destruct H as [-> | H].
    + right; left; reflexivity.
    + left; apply Hf, H.
  - left; apply Hf, H.
Qed.

Lemma NoDup_get_modifications (ps : list str) :
  NoDup (keys (get_modifications ps)).
Proof.
  unfold get_modifications. cbv zeta.
  assert (H : NoDup (keys (fold_left scan_paragraph ps [])))
    by (apply NoDup_fold_scan; constructor).
  destruct (_ && _); [apply NoDup_keys_set, H | exact H].
Qed.

Lemma get_fold_unrecognized (f : Field) (ps : list str) (m : dict) :
  (forall q v, In q ps -> ~ Recognized f q v) ->
  get (fold_left scan_paragraph ps m) (original f) = get m (original f).
Proof.
  revert m; induction ps as [|p ps IH]; intros m H; simpl; [reflexivity|].
  rewrite IH by (intros q v Hq; apply H; right; exact Hq).
  rewrite scan_paragraph_recognize.
  destruct (recognize p) as [[g v]|] eqn:E; [|reflexivity].
  apply get_set_other. intros Ho. apply original_injective in Ho. subst g.
  apply recognize_Recognized in E. apply (H p v); [left; reflexivity | exact E].
Qed.

(** The last record recognised for a field decides its entry. *)
Lemma get_fold_last (f : Field) (ps1 : list str) (p : str)
    (ps2 : list str) (v : str) (m : dict) :
  Recognized f p v ->
  (forall q v', In q ps2 -> ~ Recognized f q v') ->
  get (fold_left scan_paragraph (ps1 ++ p :: ps2) m) (original f) = Some v.
Proof.
  intros Hp Hrest. rewrite fold_left_app. cbn [fold_left].
  rewrite get_fold_unrecognized by exact Hrest.
  rewrite scan_paragraph_recognize.
  apply recognize_Recognized in Hp. rewrite Hp. apply get_set_same.
Qed.

Lemma get_modifications_field (ps : list str) (f : Field) :
  get (get_modifications ps) (original f) =
  get (fold_left scan_paragraph ps []) (original f).
Proof.
  unfold get_modifications. cbv zeta.
  destruct (_ && _); [|reflexivity].
  apply get_set_other, lorem_not_original.
Qed.

End MapFacts.

(* ===================================================================== *)
(** ** Runs of the reconstruction *)
(* ===================================================================== *)

Section RunFacts.
Import PyStr PyDict Index Subst Resolver Recon Spec.

Lemma hoare_ret {A} (a : A) (P : State -> Prop) (Q : A -> State -> Prop)
    (E : State -> Prop) :
  (forall st, P st -> Q a st) -> hoare P (ret a) Q E.
Proof. intros H st HP. apply H, HP. Qed.

Lemma hoare_raise {A} (e : Exn) (P : State -> Prop)
    (Q : A -> State -> Prop) (E : State -> Prop) :
  (forall st, P st -> E st) -> hoare P (raise e) Q E.
Proof. intros H st HP. apply H, HP. Qed.

Lemma hoare_bind {A B} (c : M A) (k : A -> M B) (P : State -> Prop)
    (R : A -> State -> Prop) (Q : B -> State -> Prop) (E : State -> Prop) :
  hoare P c R E -> (forall a, hoare (R a) (k a) Q E) ->
  hoare P (bind c k) Q E.
Proof.
  intros Hc Hk st HP. unfold bind. specialize (Hc st HP).
  destruct (c st) as [[a|e] st1]; [apply Hk, Hc | exact Hc].
Qed.

Lemma hoare_update (f : State -> State) (P : State -> Prop)
    (Q : unit -> State -> Prop) (E : State -> Prop) :
  (forall st, P st -> Q tt (f st)) -> hoare P (update f) Q E.
Proof. intros H st HP. apply H, HP. Qed.

Lemma hoare_of_option {A} (o : option A) (e : Exn) (P : State -> Prop)
    (Q : A -> State -> Prop) (E : State -> Prop) :
  (forall a st, o = Some a -> P st -> Q a st) ->
  (o = None -> forall st, P st -> E st) ->
  hoare P (of_option o e) Q E.
Proof.
  intros HS HN st HP. destruct o as [a|]; simpl.
  - apply HS; [reflexivity | exact HP].
  - apply HN; [reflexivity | exact HP].
Qed.

(** A loop whose body appends draws and extractions, and establishes
    a fact [G] about each element it passes. *)
Lemma hoare_for_each {A} (body : A -> M unit) (f : A -> list Op)
    (g : A -> list Z) (G : A -> Prop) (sz : Q * Q) (E : State -> Prop)
    (l : list A) :
  (forall a, In a l -> forall ops xs,
     hoare (Drawing sz ops xs) (body a)
           (fun _ st => Drawing sz (ops ++ f a) (xs ++ g a) st /\ G a) E) ->
  forall ops xs,
    hoare (Drawing sz ops xs) (for_each l body)
          (fun _ st =>
             Drawing sz (ops ++ flat_map f l) (xs ++ flat_map g l) st /\
             Forall G l)
          E.
Proof.
  induction l as [|a l IH]; intros Hbody ops xs.
  - apply hoare_ret. intros st ->. simpl. rewrite !app_nil_r.
    split; [reflexivity | constructor].
  - cbn [for_each flat_map].
    intros st Hst. unfold bind.
    pose proof (Hbody a (or_introl eq_refl) ops xs st Hst) as Ha.
    destruct (body a st) as [[[]|e] st1]; [|exact Ha].
    destruct Ha as [Hst1 Ga].
    pose proof (IH (fun b Hb => Hbody b (or_intror Hb)) _ _ st1 Hst1) as Hl.
    destruct (for_each l body st1) as [[[]|e] st2]; [|exact Hl].
    destruct Hl as [Hst2 Gl]. rewrite !app_assoc.
    split; [exact Hst2 | constructor; assumption].
Qed.

Lemma flat_map_nil {A B} (l : list A) :
  flat_map (fun _ : A => @nil B) l = [].
Proof. induction l; simpl; auto. Qed.

(** A loop that only draws. *)
Lemma hoare_for_each_draw {A} (body : A -> M unit) (f : A -> list Op)
    (sz : Q * Q) (E : State -> Prop) (l : list A) :
  (forall a ops xs,
     hoare (Drawing sz ops xs) (body a)
           (fun _ => Drawing sz (ops ++ f a) xs) E) ->
  forall ops xs,
    hoare (Drawing sz ops xs) (for_each l body)
          (fun _ => Drawing sz (ops ++ flat_map f l) xs) E.
Proof.
  intros Hbody ops xs st Hst.
  assert (Hb : forall a, In a l -> forall ops' xs',
             hoare (Drawing sz ops' xs') (body a)
                   (fun _ st' => Drawing sz (ops' ++ f a) (xs' ++ []) st'
                                 /\ True) E).
  { intros a _ ops' xs' st' Hst'. specialize (Hbody a ops' xs' st' Hst').
    destruct (body a st') as [[[]|e] st2]; [|exact Hbody].
    rewrite app_nil_r. split; [exact Hbody | exact I]. }
  pose proof (hoare_for_each body f (fun _ => []) (fun _ => True) sz E l
                Hb ops xs st Hst) as H.
  destruct (for_each l body st) as [[[]|e] st2]; [|exact H].
  rewrite flat_map_nil, app_nil_r in H. exact (proj1 H).
Qed.

Lemma Drawing_both_open (sz : Q * Q) (ops : list Op) (xs : list Z)
    (st : State) :
  Drawing sz ops xs st -> both_open st.
Proof. intros ->. split; reflexivity. Qed.

Lemma flat_map_flat_map {A B C} (f : B -> list C) (g : A -> list B)
    (l : list A) :
  flat_map f (flat_map g l) = flat_map (fun a => flat_map f (g a)) l.
Proof.
  induction l as [|a l IH]; simpl; [reflexivity|].
  rewrite flat_map_app, IH. reflexivity.
Qed.

Lemma process_span_spec (w : World) (mappings : dict) (s : Span)
    (sz : Q * Q) (ops : list Op) (xs : list Z) :
  hoare (Drawing sz ops xs) (process_span w mappings s)
        (fun _ => Drawing sz (ops ++ span_ops mappings s) xs) both_open.
Proof.
  unfold process_span, span_ops. cbv zeta.
  destruct (blank (text s)).
  - apply hoare_ret. intros st ->. rewrite app_nil_r. reflexivity.
  - unfold insert_text. destruct (insert_text_ok w _ _).
    + apply hoare_update. intros st ->. reflexivity.
    + apply hoare_raise. intros st. apply Drawing_both_open.
Qed.

Lemma process_block_spec (w : World) (mappings : dict) (b : Block)
    (sz : Q * Q) (ops : list Op) (xs : list Z) :
  hoare (Drawing sz ops xs) (process_block w mappings b)
        (fun _ => Drawing sz
                    (ops ++ flat_map (span_ops mappings) (block_spans b))
                    xs)
        both_open.
Proof.
  unfold process_block, block_spans. destruct (lines b) as [ls|].
  - rewrite flat_map_flat_map.
    apply hoare_for_each_draw. intros line ops' xs'.
    apply hoare_for_each_draw. intros s ops'' xs''.
    apply process_span_spec.
  - apply hoare_ret. intros st ->. simpl. rewrite app_nil_r. reflexivity.
Qed.

Lemma text_phase_spec (w : World) (mappings : dict) (blocks : list Block)
    (sz : Q * Q) (ops : list Op) (xs : list Z) :
  hoare (Drawing sz ops xs) (for_each blocks (process_block w mappings))
        (fun _ => Drawing sz (ops ++ text_ops mappings blocks) xs)
        both_open.
Proof.
  unfold text_ops, all_spans. rewrite flat_map_flat_map.
  apply hoare_for_each_draw. intros b ops' xs'.
  apply process_block_spec.
Qed.

Lemma flat_map_single {A B} (f : A -> B) (l : list A) :
  flat_map (fun a => [f a]) l = List.map f l.
Proof. induction l as [|a l IH]; simpl; [|rewrite IH]; reflexivity. Qed.

Lemma insert_image_spec (w : World) (image_bytes : bytes) (r : Rect)
    (sz : Q * Q) (ops : list Op) (xs : list Z) :
  hoare (Drawing sz ops xs) (insert_image w r image_bytes)
        (fun _ => Drawing sz (ops ++ [InsertImage r image_bytes]) xs)
        both_open.
Proof.
  unfold insert_image. destruct (insert_image_ok w r image_bytes).
  - apply hoare_update. intros st ->. reflexivity.
  - apply hoare_raise. intros st. apply Drawing_both_open.
Qed.

Lemma copy_image_spec (w : World) (doc : Document) (p : Page)
    (img : ImageItem) (sz : Q * Q) (ops : list Op) (xs : list Z) :
  hoare (Drawing sz ops xs) (copy_image w doc p img)
        (fun _ st => Drawing sz (ops ++ item_ops doc p img)
                                (xs ++ [xref img]) st /\
                     readable doc p img)
        both_open.
Proof.
  intros st ->.
  unfold copy_image, extract, bind, update, item_ops, readable. cbn.
  destruct (extract_image doc (xref img)) as [b|]; cbn;
    [|split; reflexivity].
  destruct (get_image_rects p (xref img)) as [rs|]; cbn;
    [|split; reflexivity].
  pose proof (hoare_for_each_draw
                (fun r => insert_image w r b)
                (fun r => [InsertImage r b]) sz both_open rs
                (fun r => insert_image_spec w b r sz)
                ops (xs ++ [xref img]) _ eq_refl)
    as H.
  rewrite flat_map_single in H.
  destruct (for_each rs _ _) as [[[]|e] st2]; [|exact H].
  split; [exact H | split; eauto].
Qed.

Lemma image_phase_spec (w : World) (doc : Document) (p : Page)
    (sz : Q * Q) (ops : list Op) (xs : list Z) :
  hoare (Drawing sz ops xs)
        (for_each (get_images p) (copy_image w doc p))
        (fun _ st => Drawing sz (ops ++ image_ops doc p)
                                (xs ++ List.map xref (get_images p)) st /\
                     Forall (readable doc p) (get_images p))
        both_open.
Proof.
  unfold image_ops. rewrite <- flat_map_single.
  apply hoare_for_each. intros img _ ops' xs'. apply copy_image_spec.
Qed.

(** The whole run: what a run that returns has done, and which handles
    a run that raises leaves open. *)
Lemma reconstruct_spec (w : World) :
  hoare (fun st => st = initial) (reconstruct_with_exact_positions w)
    (fun _ st' =>
       exists paragraphs doc p blocks,
         enhanced_modified_docx w = Some paragraphs /\
         enhanced_sample_pdf w = Some doc /\
         nth_error (pages doc) 0 = Some p /\
         get_text p = Some blocks /\
         Forall (readable doc p) (get_images p) /\
         st' = mkState false false (Some (width p, height p))
                 (text_ops (get_modifications paragraphs) blocks
                  ++ image_ops doc p)
                 (List.map xref (get_images p))
                 (Some (text_ops (get_modifications paragraphs) blocks
                        ++ image_ops doc p)))
    (fun st' => original_open st' = acquired_original w /\
                new_open st' = acquired_new w).
Proof.
  intros st ->.
  unfold reconstruct_with_exact_positions, acquired_original, acquired_new.
  cbv [bind of_option ret raise update open_original load_page open_new
       new_page].
  destruct (enhanced_modified_docx w) as [paragraphs|] eqn:Ed;
    [|split; reflexivity].
  destruct (enhanced_sample_pdf w) as [doc|] eqn:Es;
    [|split; reflexivity].
  cbv beta iota.
  destruct (nth_error (pages doc) 0) as [p|] eqn:Ep;
    [|split; reflexivity].
  cbv beta iota.
  destruct (get_text p) as [blocks|] eqn:Et;
    [|split; reflexivity].
  cbv [initial original_open new_open page_size content extracted saved].
  pose proof (text_phase_spec w (get_modifications paragraphs) blocks
                (width p, height p) [] [] _ eq_refl) as Ht.
  destruct (for_each blocks _ _) as [[[]|e] st1];
    [|exact Ht].
  red in Ht. subst st1. cbn [app] in *.
  pose proof (image_phase_spec w doc p (width p, height p)
                (text_ops (get_modifications paragraphs) blocks) []
                _ eq_refl) as Hi.
  destruct (for_each (get_images p) _ _) as [[[]|e] st2];
    [|exact Hi].
  destruct Hi as [Hi Hread]. red in Hi. subst st2. cbn [app] in *.
  unfold save. destruct (save_ok w).
  - cbv [update close_original close_new original_open new_open page_size
         content extracted saved].
    exists paragraphs, doc, p, blocks.
    repeat split; try reflexivity; assumption.
  - cbv [raise]. split; reflexivity.
Qed.

Lemma reconstruct_returns (w : World) (st' : State) :
  reconstruct_with_exact_positions w initial = (Ok tt, st') ->
  exists paragraphs doc p blocks,
    enhanced_modified_docx w = Some paragraphs /\
    enhanced_sample_pdf w = Some doc /\
    nth_error (pages doc) 0 = Some p /\
    get_text p = Some blocks /\
    Forall (readable doc p) (get_images p) /\
    st' = mkState false false (Some (width p, height p))
            (text_ops (get_modifications paragraphs) blocks
             ++ image_ops doc p)
            (List.map xref (get_images p))
            (Some (text_ops (get_modifications paragraphs) blocks
                   ++ image_ops doc p)).
Proof.
  intros H. pose proof (reconstruct_spec w initial eq_refl) as S.
  rewrite H in S. exact S.
Qed.

Lemma reconstruct_raises (w : World) (e : Exn) (st' : State) :
  reconstruct_with_exact_positions w initial = (Raise e, st') ->
  original_open st' = acquired_original w /\
  new_open st' = acquired_new w.
Proof.
  intros H. pose proof (reconstruct_spec w initial eq_refl) as S.
  rewrite H in S. exact S.
Qed.

End RunFacts.

(* ===================================================================== *)
(** ** What ends up on the output page *)
(* ===================================================================== *)

Section PageFacts.
Import PyStr PyDict Index Subst Resolver Recon Spec.

Lemma blank_forallb (t : str) : blank t = forallb is_space t.
Proof.
  unfold blank. destruct (strip t) as [|c r] eqn:E.
  - symmetry. apply strip_nil_iff, E.
  - destruct (forallb is_space t) eqn:F; [|reflexivity].
    apply strip_nil_iff in F. congruence.
Qed.

Lemma filter_flat_map_all {A B} (P : B -> bool) (f : A -> list B)
    (l : list A) :
  (forall a, filter P (f a) = f a) ->
  filter P (flat_map f l) = flat_map f l.
Proof.
  intros H. induction l as [|a l IH]; simpl; [reflexivity|].
  rewrite filter_app, H, IH. reflexivity.
Qed.

Lemma filter_flat_map_none {A B} (P : B -> bool) (f : A -> list B)
    (l : list A) :
  (forall a, filter P (f a) = []) -> filter P (flat_map f l) = [].
Proof.
  intros H. induction l as [|a l IH]; simpl; [reflexivity|].
  rewrite filter_app, H, IH. reflexivity.
Qed.

Lemma span_ops_text (m : dict) (s : Span) :
  filter is_text (span_ops m s) = span_ops m s.
Proof. unfold span_ops. destruct (blank (text s)); reflexivity. Qed.

Lemma span_ops_not_image (m : dict) (s : Span) :
  filter (fun op => negb (is_text op)) (span_ops m s) = [].
Proof. unfold span_ops. destruct (blank (text s)); reflexivity. Qed.

Lemma item_ops_image (doc : Document) (p : Page) (img : ImageItem) :
  filter (fun op => negb (is_text op)) (item_ops doc p img)
  = item_ops doc p img.
Proof.
  unfold item_ops.
  destruct (extract_image doc (xref img)) as [b|]; [|reflexivity].
  destruct (get_image_rects p (xref img)) as [rs|]; [|reflexivity].
  induction rs as [|r rs IH]; simpl; [|rewrite IH]; reflexivity.
Qed.

Lemma item_ops_not_text (doc : Document) (p : Page) (img : ImageItem) :
  filter is_text (item_ops doc p img) = [].
Proof.
  unfold item_ops.
  destruct (extract_image doc (xref img)) as [b|]; [|reflexivity].
  destruct (get_image_rects p (xref img)) as [rs|]; [|reflexivity].
  induction rs as [|r rs IH]; simpl; [|rewrite IH]; reflexivity.
Qed.

(** The text draws of a page that holds the text and then the images. *)
Lemma text_draws_page (m : dict) (blocks : list Block) (doc : Document)
    (p : Page) :
  text_draws (text_ops m blocks ++ image_ops doc p) = text_ops m blocks.
Proof.
  unfold text_draws, text_ops, image_ops. rewrite filter_app.
  rewrite filter_flat_map_all by apply span_ops_text.
  rewrite filter_flat_map_none by apply item_ops_not_text.
  apply app_nil_r.
Qed.

Lemma image_draws_page (m : dict) (blocks : list Block) (doc : Document)
    (p : Page) :
  image_draws (text_ops m blocks ++ image_ops doc p) = image_ops doc p.
Proof.
  unfold image_draws, text_ops, image_ops. rewrite filter_app.
  rewrite filter_flat_map_none by apply span_ops_not_image.
  rewrite filter_flat_map_all by apply item_ops_image.
  reflexivity.
Qed.

(** One draw for each span that is not blank, in the order of the
    spans. *)
Lemma text_ops_spans (m : dict) (blocks : list Block) :
  text_ops m blocks =
  List.map (fun s => InsertText (x0 (bbox s), y0 (bbox s))
                                (apply_modifications (text s) m)
                                (map_font (font s)) (size s)
                                (convert_color (color s)))
           (filter (fun s => negb (forallb is_space (text s)))
                   (all_spans blocks)).
Proof.
  unfold text_ops. induction (all_spans blocks) as [|s l IH];
    [reflexivity|].
  cbn [flat_map filter]. rewrite IH. unfold span_ops.
  rewrite blank_forallb. destruct (forallb is_space (text s)); reflexivity.
Qed.

Lemma replays_item (doc : Document) (p : Page) (img : ImageItem) :
  readable doc p img ->
  Forall2 (replays doc)
          match get_image_rects p (xref img) with
          | Some rs => List.map (pair (xref img)) rs
          | None => []
          end
          (item_ops doc p img).
Proof.
  intros [[b Hb] [rs Hrs]]. unfold item_ops. rewrite Hb, Hrs.
  clear Hrs. induction rs as [|r rs IH]; simpl; constructor;
    [|exact IH].
  exists b. split; [exact Hb | reflexivity].
Qed.

Lemma replays_items (doc : Document) (p : Page) (imgs : list ImageItem) :
  Forall (readable doc p) imgs ->
  Forall2 (replays doc)
          (flat_map (fun x => match get_image_rects p x with
                              | Some rs => List.map (pair x) rs
                              | None => []
                              end)
                    (List.map xref imgs))
          (flat_map (item_ops doc p) imgs).
Proof.
  induction 1 as [|img imgs Hr _ IH]; simpl; [constructor|].
  apply Forall2_app; [apply replays_item, Hr | exact IH].
Qed.

Lemma count_occ_NoDup (l : list Z) (x : Z) :
  NoDup l -> In x l -> count_occ Z.eq_dec l x = 1.
Proof.
  intros Hn Hin. rewrite (NoDup_count_occ Z.eq_dec) in Hn.
  specialize (Hn x). apply (count_occ_In Z.eq_dec) in Hin. lia.
Qed.

End PageFacts.

(* ===================================================================== *)
(** ** The claims *)
(* ===================================================================== *)

Section Claims.
Import PyStr PyDict Index Subst Resolver Recon Spec Samples.

(** C1. For every span text and every map, [apply_modifications]
    replaces every non-overlapping occurrence of each key by its value,
    key after key in the order of the map, each key being matched
    against the result of the replacements before it: its result is
    the one text that [Substituted] allows.  When no key occurs in the
    text, the text is returned unchanged. *)
Theorem apply_modifications_replaces_in_order (text : str)
    (mappings : dict) :
  (forall r, Substituted text mappings r <->
             r = apply_modifications text mappings) /\
  (no_key_occurs text mappings ->
   apply_modifications text mappings = text).
Proof.
  split.
  - intros r. split.
    + intros H. eapply Substituted_unique; [exact H|].
      apply apply_modifications_Substituted.
    + intros ->. apply apply_modifications_Substituted.
  - apply apply_modifications_absent.
Qed.

Lemma apply_modifications_replaces_in_order_witness :
  Substituted (lit "ab") [(lit "a", lit "b"); (lit "b", lit "c")]
              (lit "cc") /\
  apply_modifications (lit "Hello") [(lit "xyz", lit "q")] = lit "Hello".
Proof.
  split.
  - apply (proj1 (apply_modifications_replaces_in_order _ _)).
    vm_compute. reflexivity.
  - apply (proj2 (apply_modifications_replaces_in_order _ _)).
    intros old new [H | []]. injection H as <- <-. reflexivity.
Defined.

(** C4, as the code has it.  A record is recognised when its trimmed
    text contains a label anywhere ([Address:] before [Phone:] before
    [Email:]) followed by at least one character; the loop then maps
    the known original value of that field to the text that follows the
    first occurrence of the label once the white space after the label
    (line feeds included) is passed over, up to the next line feed or
    the end of the record, trimmed, and that value is never empty.  A
    record that is not recognised leaves the map as it is.  The entries
    of the fields in the returned map are those the loop has set. *)
Theorem labelled_record_recognized_by_containment
    (paragraphs : list str) (p : str) :
  (forall f v, Recognized f p v ->
     v <> [] /\
     fold_left scan_paragraph (paragraphs ++ [p]) [] =
     set (fold_left scan_paragraph paragraphs []) (original f) v) /\
  ((forall f v, ~ Recognized f p v) ->
     fold_left scan_paragraph (paragraphs ++ [p]) [] =
     fold_left scan_paragraph paragraphs []) /\
  (forall f, get (get_modifications paragraphs) (original f) =
             get (fold_left scan_paragraph paragraphs []) (original f)).
Proof.
  rewrite fold_left_app. cbn [fold_left].
  rewrite scan_paragraph_recognize. repeat split.
  - eapply Recognized_nonempty; eauto.
  - apply recognize_Recognized in H. rewrite H. reflexivity.
  - intros H. rewrite not_Recognized_recognize by exact H. reflexivity.
  - intros f. apply get_modifications_field.
Qed.

Lemma labelled_record_recognized_by_containment_witness :
  (lit "9 Elm" <> [] /\
   fold_left scan_paragraph ([] ++ [lit "Old Address: 9 Elm"]) [] =
   set [] address_original (lit "9 Elm")) /\
  (lit "42 New Ave" <> [] /\
   fold_left scan_paragraph
     ([] ++ [lit "Address:" ++ [newline] ++ lit "42 New Ave"
             ++ [newline] ++ lit "Floor 2"]) [] =
   set [] address_original (lit "42 New Ave")) /\
  fold_left scan_paragraph ([] ++ [lit "Hello"]) [] = [].
Proof.
  split; [|split].
  - apply (proj1 (labelled_record_recognized_by_containment
                    [] (lit "Old Address: 9 Elm")) Address (lit "9 Elm")).
    apply recognize_Recognized. vm_compute. reflexivity.
  - apply (proj1 (labelled_record_recognized_by_containment
                    [] (lit "Address:" ++ [newline] ++ lit "42 New Ave"
                        ++ [newline] ++ lit "Floor 2"))
                 Address (lit "42 New Ave")).
    apply recognize_Recognized. vm_compute. reflexivity.
  - apply (proj1 (proj2 (labelled_record_recognized_by_containment
                           [] (lit "Hello")))).
    intros f v H. apply recognize_Recognized in H. vm_compute in H.
    discriminate.
Defined.

(** C4, as stated, fails: a record that does not begin with a label
    still adds an entry. *)
Lemma label_inside_record_adds_entry :
  ~ prefix_recognized (lit "Old Address: 9 Elm") /\
  get_modifications [lit "Old Address: 9 Elm"] =
  [(address_original, lit "9 Elm")].
Proof.
  split.
  - intros [f H]. destruct f; vm_compute in H; discriminate.
  - vm_compute. reflexivity.
Qed.

(** C5, as the code has it.  The font is one of the three names; a
    descriptor containing [Bold] gives bold, with or without
    [Oblique]; a descriptor containing [Oblique] and not [Bold] gives
    oblique; a descriptor containing neither gives regular. *)
Theorem map_font_bold_first (font_name : str) :
  (contains (lit "Bold") font_name = true ->
   map_font font_name = helvetica_bold) /\
  (contains (lit "Bold") font_name = false ->
   contains (lit "Oblique") font_name = true ->
   map_font font_name = helvetica_oblique) /\
  (contains (lit "Bold") font_name = false ->
   contains (lit "Oblique") font_name = false ->
   map_font font_name = helvetica).
Proof.
  unfold map_font. repeat split.
  - intros ->. reflexivity.
  - intros -> ->. reflexivity.
  - intros -> ->. reflexivity.
Qed.

Lemma map_font_bold_first_witness :
  map_font (lit "Helvetica-Bold") = helvetica_bold /\
  map_font (lit "Helvetica-Oblique") = helvetica_oblique /\
  map_font (lit "Times-Roman") = helvetica.
Proof.
  split; [|split].
  - apply (proj1 (map_font_bold_first (lit "Helvetica-Bold"))).
    reflexivity.
  - apply (proj1 (proj2 (map_font_bold_first (lit "Helvetica-Oblique"))));
      reflexivity.
  - apply (proj2 (proj2 (map_font_bold_first (lit "Times-Roman"))));
      reflexivity.
Defined.

(** C5, as stated, fails: a descriptor containing [Oblique] is mapped
    to bold when it also contains [Bold]. *)
Lemma bold_oblique_descriptor_is_bold :
  contains (lit "Oblique") (lit "Helvetica-BoldOblique") = true /\
  map_font (lit "Helvetica-BoldOblique") <> helvetica_oblique.
Proof.
  split; [reflexivity|]. vm_compute. discriminate.
Qed.

(** C6. The colour value 139 is mapped to the dark-blue triple
    (0, 0, 139/255), every other value to black (0, 0, 0). *)
Theorem convert_color_sentinel (color : Z) :
  (color = 139%Z -> convert_color color = (0 # 1, 0 # 1, 139 # 255)) /\
  (color <> 139%Z -> convert_color color = (0 # 1, 0 # 1, 0 # 1)).
Proof.
  unfold convert_color. split.
  - intros ->. reflexivity.
  - intros H. apply Z.eqb_neq in H. rewrite H. reflexivity.
Qed.

Lemma convert_color_sentinel_witness :
  convert_color 139 = (0 # 1, 0 # 1, 139 # 255) /\
  convert_color 0 = (0 # 1, 0 # 1, 0 # 1).
Proof.
  split.
  - apply (proj1 (convert_color_sentinel 139)). reflexivity.
  - apply (proj2 (convert_color_sentinel 0)). discriminate.
Defined.

(** C8. The returned map has an entry for [Lorem ipsum] exactly when
    [Lorem ipsum] is absent from the text of the edited document (its
    paragraphs joined by spaces) and [Sample text] is present in it;
    the value of that entry is [Sample text]. *)
Theorem placeholder_mapped_iff_replaced (paragraphs : list str)
    (v : str) :
  In (lorem_ipsum, v) (get_modifications paragraphs) <->
  v = sample_text /\
  contains lorem_ipsum (join (lit " ") paragraphs) = false /\
  contains sample_text (join (lit " ") paragraphs) = true.
Proof.
  rewrite (in_items_get _ _ _ (NoDup_get_modifications paragraphs)).
  unfold get_modifications. cbv zeta.
  assert (Hn : get (fold_left scan_paragraph paragraphs []) lorem_ipsum
               = None).
  { apply get_None_iff. intros H.
    destruct (keys_fold_scan _ _ _ H) as [[] | H'].
    exact (lorem_not_in_fields H'). }
  destruct (contains sample_text (join (lit " ") paragraphs));
    destruct (contains lorem_ipsum (join (lit " ") paragraphs));
    cbn [andb negb].
  - rewrite Hn. split; [discriminate | intros [_ [H _]]; discriminate].
  - rewrite get_set_same. split.
    + intros H; inversion H. repeat split.
    + intros [-> _]. reflexivity.
  - rewrite Hn. split; [discriminate | intros [_ [H _]]; discriminate].
  - rewrite Hn. split; [discriminate | intros [_ [_ H]]; discriminate].
Qed.

Lemma placeholder_mapped_iff_replaced_witness :
  In (lorem_ipsum, sample_text)
     (get_modifications [lit "Sample text dolor"; lit "sit amet"]).
Proof.
  apply (proj2 (placeholder_mapped_iff_replaced
                  [lit "Sample text dolor"; lit "sit amet"] sample_text)).
  repeat split.
Defined.

(** C10. The keys of the returned map are among the four fixed
    original strings and are distinct, so the map has at most four
    entries; and the entry of a field is the value of the last record
    recognised for that field. *)
Theorem modification_keys_fixed_last_wins (paragraphs : list str) :
  (forall k, In k (keys (get_modifications paragraphs)) ->
     In k [address_original; phone_original; email_original;
           lorem_ipsum]) /\
  NoDup (keys (get_modifications paragraphs)) /\
  length (get_modifications paragraphs) <= 4 /\
  (forall f before p after v,
     paragraphs = before ++ p :: after ->
     Recognized f p v ->
     (forall q v', In q after -> ~ Recognized f q v') ->
     get (get_modifications paragraphs) (original f) = Some v).
Proof.
  assert (Hk : forall k, In k (keys (get_modifications paragraphs)) ->
                 In k [address_original; phone_original; email_original;
                       lorem_ipsum])
    by (intros k; apply keys_get_modifications).
  pose proof (NoDup_get_modifications paragraphs) as Hn.
  repeat split.
  - exact Hk.
  - exact Hn.
  - pose proof (NoDup_incl_length Hn Hk) as L.
    unfold keys in L. rewrite length_map in L. exact L.
  - intros f before p after v -> Hp Hafter.
    rewrite get_modifications_field. apply get_fold_last; assumption.
Qed.

Lemma modification_keys_fixed_last_wins_witness :
  get (get_modifications [lit "Address: 1 First St";
                          lit "Address: 2 Second St"])
      address_original = Some (lit "2 Second St").
Proof.
  apply (proj2 (proj2 (proj2 (modification_keys_fixed_last_wins
           [lit "Address: 1 First St"; lit "Address: 2 Second St"])))
         Address [lit "Address: 1 First St"]
         (lit "Address: 2 Second St") [] (lit "2 Second St")).
  - reflexivity.
  - apply recognize_Recognized. vm_compute. reflexivity.
  - intros q v' [].
Defined.

End Claims.

Section RunClaims.
Import PyStr PyDict Index Subst Resolver Recon Spec Samples.

(** What a run that returns leaves on the page, for the inputs it
    read. *)
Lemma returned_content (w : World) (paragraphs : list str)
    (doc : Document) (p : Page) (blocks : list Block) (st' : State) :
  enhanced_modified_docx w = Some paragraphs ->
  enhanced_sample_pdf w = Some doc ->
  nth_error (pages doc) 0 = Some p ->
  get_text p = Some blocks ->
  reconstruct_with_exact_positions w initial = (Ok tt, st') ->
  content st' = text_ops (get_modifications paragraphs) blocks
                ++ image_ops doc p /\
  extracted st' = List.map xref (get_images p) /\
  Forall (readable doc p) (get_images p) /\
  released st'.
Proof.
  intros Hd Hs Hp Ht Hrun.
  destruct (reconstruct_returns w st' Hrun)
    as [paragraphs' [doc' [p' [blocks' [Hd' [Hs' [Hp' [Ht' [Hr ->]]]]]]]]].
  rewrite Hd in Hd'. injection Hd' as <-.
  rewrite Hs in Hs'. injection Hs' as <-.
  rewrite Hp in Hp'. injection Hp' as <-.
  rewrite Ht in Ht'. injection Ht' as <-.
  repeat split; [exact Hr].
Qed.

(** C3. In a run that returns, the text drawn on the output page is,
    in the order of the source, one draw for each span whose text is
    not all white space, and none for the others; the draw puts the
    substituted text at the top-left corner (x0, y0) of the span's
    bounding box, with the mapped font, the span's size and the
    converted colour, whatever the length of the substituted text. *)
Theorem spans_drawn_at_top_left (w : World) (paragraphs : list str)
    (doc : Document) (p : Page) (blocks : list Block) (st' : State) :
  enhanced_modified_docx w = Some paragraphs ->
  enhanced_sample_pdf w = Some doc ->
  nth_error (pages doc) 0 = Some p ->
  get_text p = Some blocks ->
  reconstruct_with_exact_positions w initial = (Ok tt, st') ->
  text_draws (content st') =
  List.map (fun s => InsertText (x0 (bbox s), y0 (bbox s))
                       (apply_modifications (text s)
                          (get_modifications paragraphs))
                       (map_font (font s)) (size s)
                       (convert_color (color s)))
           (filter (fun s => negb (forallb is_space (text s)))
                   (all_spans blocks)).
Proof.
  intros Hd Hs Hp Ht Hrun.
  destruct (returned_content _ _ _ _ _ _ Hd Hs Hp Ht Hrun) as [-> _].
  rewrite text_draws_page. apply text_ops_spans.
Qed.

Lemma spans_drawn_at_top_left_witness :
  text_draws
    (content (snd (reconstruct_with_exact_positions sample_world initial)))
  = [InsertText (50 # 1, 20 # 1) (lit "Enhanced Sample Document")
                helvetica_bold (18 # 1) dark_blue;
     InsertText (50 # 1, 50 # 1) (lit "42 New Ave")
                helvetica (12 # 1) black].
Proof.
  assert (H : reconstruct_with_exact_positions sample_world initial =
              (Ok tt, snd (reconstruct_with_exact_positions
                             sample_world initial)))
    by (vm_compute; reflexivity).
  rewrite (spans_drawn_at_top_left sample_world
             [lit "Address: 42 New Ave"] sample_doc sample_page
             sample_blocks _ eq_refl eq_refl eq_refl eq_refl H).
  vm_compute. reflexivity.
Defined.

(** C9, as the code has it.  In a run that returns and whose map is
    empty, the page that is drawn and saved holds, for every span of
    the source that is not blank and in the order of the source, the
    span's own text, unchanged, put at the top-left corner (x0, y0) of
    the span's bounding box, with the mapped font, the span's size and
    the converted colour: substitution with the empty map is the
    identity on every text.  Of the bounding box only that corner
    reaches the output. *)
Theorem empty_map_keeps_spans (w : World) (paragraphs : list str)
    (doc : Document) (p : Page) (blocks : list Block) (st' : State) :
  enhanced_modified_docx w = Some paragraphs ->
  enhanced_sample_pdf w = Some doc ->
  nth_error (pages doc) 0 = Some p ->
  get_text p = Some blocks ->
  get_modifications paragraphs = [] ->
  reconstruct_with_exact_positions w initial = (Ok tt, st') ->
  (forall t, apply_modifications t (get_modifications paragraphs) = t) /\
  text_draws (content st') =
  List.map (fun s => InsertText (x0 (bbox s), y0 (bbox s)) (text s)
                       (map_font (font s)) (size s)
                       (convert_color (color s)))
           (filter (fun s => negb (forallb is_space (text s)))
                   (all_spans blocks)) /\
  saved st' = Some (content st').
Proof.
  intros Hd Hs Hp Ht Hm Hrun.
  destruct (reconstruct_returns w st' Hrun)
    as [paragraphs' [doc' [p' [blocks' [Hd' [Hs' [Hp' [Ht' [_ ->]]]]]]]]].
  rewrite Hd in Hd'. injection Hd' as <-.
  rewrite Hs in Hs'. injection Hs' as <-.
  rewrite Hp in Hp'. injection Hp' as <-.
  rewrite Ht in Ht'. injection Ht' as <-.
  cbn [content saved].
  rewrite text_draws_page, text_ops_spans, Hm. repeat split.
Qed.

Lemma empty_map_keeps_spans_witness :
  text_draws
    (content (snd (reconstruct_with_exact_positions unedited_world
                                                    initial)))
  = [InsertText (50 # 1, 20 # 1) (lit "Enhanced Sample Document")
                helvetica_bold (18 # 1) dark_blue;
     InsertText (50 # 1, 50 # 1) address_original
                helvetica (12 # 1) black] /\
  saved (snd (reconstruct_with_exact_positions unedited_world initial))
  = Some (content (snd (reconstruct_with_exact_positions unedited_world
                                                         initial))).
Proof.
  assert (H : reconstruct_with_exact_positions unedited_world initial =
              (Ok tt, snd (reconstruct_with_exact_positions
                             unedited_world initial)))
    by (vm_compute; reflexivity).
  destruct (empty_map_keeps_spans unedited_world
              [lit "Nothing to see"] sample_doc sample_page
              sample_blocks _ eq_refl eq_refl eq_refl eq_refl
              eq_refl H) as [_ [Hdraws Hsaved]].
  split; [|exact Hsaved].
  rewrite Hdraws. vm_compute. reflexivity.
Defined.

(** C9, as stated, fails: two sources that differ only in the
    bottom-right corner of one span's bounding box give the same run
    (the same page drawn and saved), so nothing read off the output
    can be the bounding boxes of the source in both. *)
Lemma output_boxes_not_those_of_source :
  ~ exists boxes : State -> list Rect, boxes_reproduced boxes.
Proof.
  intros [boxes H].
  assert (H1 : reconstruct_with_exact_positions unedited_world initial =
               (Ok tt, snd (reconstruct_with_exact_positions
                              unedited_world initial)))
    by (vm_compute; reflexivity).
  assert (H2 : reconstruct_with_exact_positions stretched_world initial =
               (Ok tt, snd (reconstruct_with_exact_positions
                              unedited_world initial)))
    by (vm_compute; reflexivity).
  pose proof (H unedited_world [lit "Nothing to see"] sample_doc
                sample_page sample_blocks _
                eq_refl eq_refl eq_refl eq_refl eq_refl H1) as B1.
  pose proof (H stretched_world [lit "Nothing to see"] stretched_doc
                stretched_page stretched_blocks _
                eq_refl eq_refl eq_refl eq_refl eq_refl H2) as B2.
  rewrite B1 in B2. vm_compute in B2. discriminate.
Qed.

(** C2, as the code has it.  In a run that returns, on a page whose
    image list names each image once, the bytes of each image are
    extracted exactly once, and the image draws on the output page are,
    one for one and in order, the placements of the page: each draws
    the bytes extracted for the image at the rectangle of the
    placement, so there are as many draws as placements. *)
Theorem images_replayed_at_every_rectangle (w : World)
    (paragraphs : list str) (doc : Document) (p : Page)
    (blocks : list Block) (st' : State) :
  enhanced_modified_docx w = Some paragraphs ->
  enhanced_sample_pdf w = Some doc ->
  nth_error (pages doc) 0 = Some p ->
  get_text p = Some blocks ->
  NoDup (List.map xref (get_images p)) ->
  reconstruct_with_exact_positions w initial = (Ok tt, st') ->
  (forall x, In x (referenced p) -> extractions x st' = 1) /\
  Forall2 (replays doc) (placements p) (image_draws (content st')) /\
  length (image_draws (content st')) = length (placements p).
Proof.
  intros Hd Hs Hp Ht Hn Hrun.
  destruct (returned_content _ _ _ _ _ _ Hd Hs Hp Ht Hrun)
    as [Hc [Hx [Hr _]]].
  assert (Hp2 : Forall2 (replays doc) (placements p)
                        (image_draws (content st'))).
  { rewrite Hc, image_draws_page. unfold placements, referenced, image_ops.
    rewrite (nodup_fixed_point Z.eq_dec Hn). apply replays_items, Hr. }
  split; [|split].
  - unfold referenced, extractions.
    rewrite (nodup_fixed_point Z.eq_dec Hn), Hx. intros x Hin.
    apply count_occ_NoDup; assumption.
  - exact Hp2.
  - symmetry. eapply Forall2_length, Hp2.
Qed.

Lemma images_replayed_at_every_rectangle_witness :
  extractions 7
    (snd (reconstruct_with_exact_positions sample_world initial)) = 1 /\
  image_draws
    (content (snd (reconstruct_with_exact_positions sample_world initial)))
  = [InsertImage R1 png; InsertImage R2 png].
Proof.
  assert (H : reconstruct_with_exact_positions sample_world initial =
              (Ok tt, snd (reconstruct_with_exact_positions
                             sample_world initial)))
    by (vm_compute; reflexivity).
  assert (Hn : NoDup (List.map xref (get_images sample_page)))
    by (constructor; [intros [] | constructor]).
  split.
  - apply (proj1 (images_replayed_at_every_rectangle sample_world
                    [lit "Address: 42 New Ave"] sample_doc sample_page
                    sample_blocks _ eq_refl eq_refl eq_refl eq_refl Hn H)).
    left. reflexivity.
  - vm_compute. reflexivity.
Defined.

(** C2, as stated, fails: on a page that lists the same image twice
    and shows it once, the one referenced image is extracted twice,
    and two draws are made for one placement. *)
Lemma image_listed_twice_is_copied_twice :
  fst (reconstruct_with_exact_positions twice_world initial) = Ok tt /\
  referenced twice_page = [7%Z] /\
  extractions 7
    (snd (reconstruct_with_exact_positions twice_world initial)) = 2 /\
  length (placements twice_page) = 1 /\
  length (image_draws
            (content (snd (reconstruct_with_exact_positions twice_world
                                                            initial)))) = 2.
Proof. vm_compute. repeat split. Qed.

(** C7, at the failing input.  When the output file cannot be written,
    [save] raises and the run ends with both documents still open,
    whereas a run that returns has closed both. *)
Theorem failed_save_leaves_documents_open :
  fst (reconstruct_with_exact_positions unwritable_world initial)
  = Raise SaveError /\
  ~ released (snd (reconstruct_with_exact_positions unwritable_world
                                                    initial)) /\
  released (snd (reconstruct_with_exact_positions sample_world initial)).
Proof.
  split; [vm_compute; reflexivity|]. split.
  - intros [H _]. vm_compute in H. discriminate.
  - split; vm_compute; reflexivity.
Qed.

End RunClaims.

(* ===================================================================== *)
(** ** More on the map and on substitution *)
(* ===================================================================== *)

Section MoreStringFacts.
Import PyStr PyDict Index Subst Spec Diagnosis.

Lemma in_lstrip (c : char) (t : str) : In c (lstrip t) -> In c t.
Proof.
  induction t as [|x t IH]; simpl; [auto|].
  destruct (is_space x); [intros H; right; apply IH, H | auto].
Qed.

Lemma in_strip (c : char) (t : str) : In c (strip t) -> In c t.
Proof.
  unfold strip, rstrip. intros H.
  apply in_rev, in_lstrip, in_rev in H. apply in_lstrip, H.
Qed.

Lemma dot_star_no_newline (t : str) : ~ In newline (dot_star t).
Proof.
  induction t as [|c t IH]; simpl; [auto|].
  destruct (N.eqb c newline) eqn:E; [auto|].
  intros [H | H]; [|exact (IH H)].
  subst c. rewrite N.eqb_refl in E. discriminate.
Qed.

(** A trimmed string is empty or begins with a character that is not
    white space. *)
Lemma strip_head (t : str) :
  strip t = [] \/ exists c r, strip t = c :: r /\ is_space c = false.
Proof.
  unfold strip.
  destruct (lstrip_head t) as [E | [c [r [E Hc]]]]; rewrite E.
  - left; reflexivity.
  - right. unfold rstrip. simpl rev.
    destruct (lstrip_app_nonspace (rev r) c [] Hc) as [x' E'].
    rewrite E', rev_app_distr. simpl.
    exists c, (rev x'). split; [reflexivity | exact Hc].
Qed.

Lemma rstrip_snoc (r : str) (c : char) :
  is_space c = false -> rstrip (r ++ [c]) = r ++ [c].
Proof.
  intros H. unfold rstrip. rewrite rev_app_distr. simpl rev at 2.
  cbn [app]. rewrite lstrip_nonspace by exact H.
  simpl. rewrite rev_involutive. reflexivity.
Qed.

(** Trimming twice is trimming once. *)
Lemma strip_idempotent (t : str) : strip (strip t) = strip t.
Proof.
  destruct (strip_head t) as [E | [c [r [E Hc]]]].
  - rewrite E. reflexivity.
  - destruct (strip_last t) as [E' | [r' [c' [E' Hc']]]];
      [congruence|].
    unfold strip at 1. rewrite E, lstrip_nonspace by exact Hc.
    rewrite <- E, E'. apply rstrip_snoc, Hc'.
Qed.

Lemma no_occurrence_in_empty (k : str) : k <> [] -> contains k [] = false.
Proof. destruct k; [congruence | reflexivity]. Qed.

(** Replacing a string by itself changes nothing. *)
Lemma replace_same (t k : str) : replace t k k = t.
Proof.
  destruct k as [|x k].
  - unfold replace. cbn [app].
    induction t as [|c t IH]; simpl; [|rewrite IH]; reflexivity.
  - destruct (replace_from_segments (x :: k) (x :: k))
      with (n := length t) (t := t) as [parts [Hs Hr]];
      [discriminate | lia |].
    unfold replace. rewrite Hr. apply Segments_join, Hs.
Qed.

Lemma set_fresh (d : dict) (k v : str) :
  ~ In k (keys d) -> set d k v = d ++ [(k, v)].
Proof.
  induction d as [|[k' v'] d IH]; simpl; intros H; [reflexivity|].
  destruct (str_eqb k' k) eqn:E.
  - apply str_eqb_eq in E. subst k'. exfalso. apply H. left; reflexivity.
  - rewrite IH by (intros Hin; apply H; right; exact Hin). reflexivity.
Qed.

Lemma set_set (d : dict) (k v1 v2 : str) :
  set (set d k v1) k v2 = set d k v2.
Proof.
  induction d as [|[k' v'] d IH]; simpl.
  - rewrite str_eqb_refl. reflexivity.
  - destruct (str_eqb k' k) eqn:E; simpl; rewrite E; [reflexivity|].
    rewrite IH. reflexivity.
Qed.

Lemma in_values_set (d : dict) (k v v' : str) :
  In v' (values (set d k v)) -> v' = v \/ In v' (values d).
Proof.
  induction d as [|[k0 v0] d IH]; simpl.
  - intros [H | []]; auto.
  - destruct (str_eqb k0 k); simpl.
    + intros [H | H]; auto.
    + intros [H | H]; [auto|]. destruct (IH H); auto.
Qed.

End MoreStringFacts.

Section MapProperties.
Import PyStr PyDict Index Subst Spec Samples Diagnosis.

Lemma get_fold_None (f : Field) (ps : list str) (m : dict) :
  get (fold_left scan_paragraph ps m) (original f) = None <->
  get m (original f) = None /\
  forall q v, In q ps -> ~ Recognized f q v.
Proof.
  revert m; induction ps as [|p ps IH]; intros m; cbn [fold_left].
  - split; [intros H; split; [exact H | intros q v []] | intros [H _]; exact H].
  - rewrite IH, scan_paragraph_recognize. split.
    + intros [Hg Hps].
      destruct (recognize p) as [[g v]|] eqn:E.
      * assert (Hgf : g <> f).
        { intros ->. rewrite get_set_same in Hg. discriminate. }
        rewrite get_set_other in Hg
          by (intros Ho; apply original_injective in Ho; congruence).
        split; [exact Hg|].
        intros q v' [<- | Hq]; [|apply Hps, Hq].
        intros Hr. apply recognize_Recognized in Hr. congruence.
      * split; [exact Hg|].
        intros q v' [<- | Hq]; [|apply Hps, Hq].
        intros Hr. apply recognize_Recognized in Hr. congruence.
    + intros [Hg Hps]. split.
      * destruct (recognize p) as [[g v]|] eqn:E; [|exact Hg].
        rewrite get_set_other; [exact Hg|].
        intros Ho. apply original_injective in Ho. subst g.
        apply recognize_Recognized in E.
        exact (Hps p v (or_introl eq_refl) E).
      * intros q v Hq. apply Hps. right; exact Hq.
Qed.

(** X1. The returned map has no entry for a field exactly when no
    record of the document is recognised for that field. *)
Theorem field_absent_iff_unrecognized (paragraphs : list str)
    (f : Field) :
  get (get_modifications paragraphs) (original f) = None <->
  forall q v, In q paragraphs -> ~ Recognized f q v.
Proof.
  rewrite get_modifications_field, get_fold_None. split.
  - intros [_ H]; exact H.
  - intros H; split; [reflexivity | exact H].
Qed.

(** X2. A record whose trimmed text contains the label of a field
    tested earlier in the [if]/[elif] chain never changes the entry of
    a field tested later: [Address:] hides [Phone:] and [Email:], and
    [Phone:] hides [Email:]. *)
Theorem earlier_label_hides_later (mappings : dict) (p : str)
    (f g : Field) :
  In g (earlier f) ->
  contains (label g) (strip p) = true ->
  get (scan_paragraph mappings p) (original f) =
  get mappings (original f).
Proof.
  intros Hg Hc. rewrite scan_paragraph_recognize.
  destruct (recognize p) as [[f' v]|] eqn:E; [|reflexivity].
  apply get_set_other. intros Ho. apply original_injective in Ho.
  subst f'. apply recognize_Recognized in E. destruct E as [He _].
  rewrite (He g Hg) in Hc. discriminate.
Qed.

Lemma earlier_label_hides_later_witness :
  get (scan_paragraph [] (lit "Address: 1 Main St, Phone: 999"))
      phone_original = None.
Proof.
  apply (earlier_label_hides_later
           [] (lit "Address: 1 Main St, Phone: 999") Phone Address).
  - left. reflexivity.
  - reflexivity.
Defined.

Lemma recognize_value (p : str) (f : Field) (v : str) :
  recognize p = Some (f, v) ->
  v <> [] /\ ~ In newline v /\ strip v = v.
Proof.
  intros E. apply recognize_Recognized in E.
  split; [eapply Recognized_nonempty; exact E|].
  destruct E as [_ [before [after [_ [_ [_ ->]]]]]]. split.
  - intros H. apply in_strip in H. exact (dot_star_no_newline _ H).
  - apply strip_idempotent.
Qed.

Lemma values_scan_paragraph (P : str -> Prop) (m : dict) (p : str) :
  (forall f v, recognize p = Some (f, v) -> P v) ->
  (forall v, In v (values m) -> P v) ->
  forall v, In v (values (scan_paragraph m p)) -> P v.
Proof.
  intros Hp Hm v. rewrite scan_paragraph_recognize.
  destruct (recognize p) as [[f v0]|] eqn:E; [|apply Hm].
  intros H. apply in_values_set in H.
  destruct H as [-> | H]; [eapply Hp; reflexivity | apply Hm, H].
Qed.

Lemma values_fold_scan (P : str -> Prop) (ps : list str) (m : dict) :
  (forall p f v, recognize p = Some (f, v) -> P v) ->
  (forall v, In v (values m) -> P v) ->
  forall v, In v (values (fold_left scan_paragraph ps m)) -> P v.
Proof.
  intros Hp. revert m; induction ps as [|p ps IH]; intros m Hm;
    cbn [fold_left]; [exact Hm|].
  apply IH. apply values_scan_paragraph; [apply Hp | exact Hm].
Qed.

(** X3. Every replacement text of the returned map is non-empty,
    holds no line feed, and has no white space at either end. *)
Theorem replacement_values_trimmed (paragraphs : list str) (k v : str) :
  In (k, v) (get_modifications paragraphs) ->
  v <> [] /\ ~ In newline v /\ strip v = v.
Proof.
  intros H. apply (in_map snd) in H. cbn [snd] in H.
  change (In v (values (get_modifications paragraphs))) in H.
  revert v H. unfold get_modifications. cbv zeta.
  assert (Hf : forall v,
             In v (values (fold_left scan_paragraph paragraphs [])) ->
             v <> [] /\ ~ In newline v /\ strip v = v).
  { apply values_fold_scan.
    - intros p f v. apply recognize_value.
    - intros v []. }
  destruct (_ && _); [|exact Hf].
  intros v H. apply in_values_set in H. destruct H as [-> | H].
  - split; [discriminate|]. split; [|reflexivity].
    intros Hin. vm_compute in Hin. intuition discriminate.
  - apply Hf, H.
Qed.

Lemma replacement_values_trimmed_witness :
  lit "42 New Ave" <> [] /\ ~ In newline (lit "42 New Ave") /\
  strip (lit "42 New Ave") = lit "42 New Ave".
Proof.
  apply (replacement_values_trimmed
           [lit "  Address:    42 New Ave  "] address_original).
  left. reflexivity.
Defined.

(** X4. When the returned map has the [Lorem ipsum] entry, that entry
    is the last one: substituting with the map is substituting with
    the entries of the labelled fields and then replacing
    [Lorem ipsum] in the result. *)
Theorem placeholder_replaced_last (paragraphs : list str) (t : str) :
  In lorem_ipsum (keys (get_modifications paragraphs)) ->
  get_modifications paragraphs =
    fold_left scan_paragraph paragraphs [] ++ [(lorem_ipsum, sample_text)]
  /\
  apply_modifications t (get_modifications paragraphs) =
    replace (apply_modifications t (fold_left scan_paragraph paragraphs []))
            lorem_ipsum sample_text.
Proof.
  intros H.
  assert (Hn : ~ In lorem_ipsum
                    (keys (fold_left scan_paragraph paragraphs []))).
  { intros Hin. destruct (keys_fold_scan _ _ _ Hin) as [[] | H'].
    exact (lorem_not_in_fields H'). }
  assert (E : get_modifications paragraphs =
              fold_left scan_paragraph paragraphs []
              ++ [(lorem_ipsum, sample_text)]).
  { revert H. unfold get_modifications. cbv zeta.
    destruct (_ && _); [intros _; apply set_fresh, Hn|].
    intros H. destruct (Hn H). }
  split; [exact E|]. rewrite E. unfold apply_modifications.
  rewrite fold_left_app. reflexivity.
Qed.

Lemma placeholder_replaced_last_witness :
  get_modifications [lit "Phone: 1"; lit "Sample text"] =
  fold_left scan_paragraph [lit "Phone: 1"; lit "Sample text"] []
  ++ [(lorem_ipsum, sample_text)].
Proof.
  refine (proj1 (placeholder_replaced_last
                   [lit "Phone: 1"; lit "Sample text"] [] _)).
  right. left. reflexivity.
Defined.

(** X5. A map whose every entry replaces a string by itself (what an
    unedited companion document gives) leaves every text as it is. *)
Theorem identity_entries_change_nothing (t : str) (mappings : dict) :
  (forall k v, In (k, v) mappings -> k = v) ->
  apply_modifications t mappings = t.
Proof.
  revert t; induction mappings as [|[k v] rest IH]; intros t H;
    [reflexivity|].
  rewrite apply_modifications_cons.
  rewrite <- (H k v (or_introl eq_refl)), replace_same.
  apply IH. intros k' v' Hin. apply H. right; exact Hin.
Qed.

Lemma identity_entries_change_nothing_witness :
  apply_modifications
    (lit "Call (555) 123-4567 now")
    (get_modifications [lit "Phone: (555) 123-4567"])
  = lit "Call (555) 123-4567 now".
Proof.
  apply (identity_entries_change_nothing
           (lit "Call (555) 123-4567 now")
           (get_modifications [lit "Phone: (555) 123-4567"])).
  intros k v [H | []]. injection H as <- <-. reflexivity.
Defined.

(** X6. A record changes at most one entry of the map: there is a
    field such that every other key has the same value before and
    after the record is scanned. *)
Theorem record_sets_at_most_one_entry (mappings : dict) (p : str) :
  exists f, forall k, k <> original f ->
    get (scan_paragraph mappings p) k = get mappings k.
Proof.
  rewrite scan_paragraph_recognize.
  destruct (recognize p) as [[f v]|].
  - exists f. intros k Hk. apply get_set_other. congruence.
  - exists Address. reflexivity.
Qed.

(** X7. The empty text stays empty under every map without an empty
    key, and so under every map that [get_modifications] returns. *)
Theorem empty_text_stays_empty (mappings : dict) :
  ((forall k, In k (keys mappings) -> k <> []) ->
   apply_modifications [] mappings = []) /\
  (forall paragraphs,
     apply_modifications [] (get_modifications paragraphs) = []).
Proof.
  assert (H : forall m, (forall k, In k (keys m) -> k <> []) ->
                        apply_modifications [] m = []).
  { intros m H. apply apply_modifications_absent. intros old new Hin.
    apply no_occurrence_in_empty, H.
    apply (in_map fst) in Hin. exact Hin. }
  split; [apply H|].
  intros paragraphs. apply H. intros k Hk.
  apply keys_get_modifications in Hk.
  destruct Hk as [<- | [<- | [<- | [<- | []]]]]; discriminate.
Qed.

Lemma empty_text_stays_empty_witness :
  apply_modifications [] [(lit "a", lit "b")] = [].
Proof.
  apply (proj1 (empty_text_stays_empty [(lit "a", lit "b")])).
  intros k [<- | []]. discriminate.
Defined.

(** X8. Scanning the same record twice in a row gives the map that
    scanning it once gives. *)
Theorem scan_paragraph_idempotent (mappings : dict) (p : str) :
  scan_paragraph (scan_paragraph mappings p) p =
  scan_paragraph mappings p.
Proof.
  rewrite !scan_paragraph_recognize.
  destruct (recognize p) as [[f v]|]; [apply set_set | reflexivity].
Qed.

(** X9. A record that, once trimmed, holds a label and nothing else
    leaves the map as it is: an earlier value of the field is kept. *)
Theorem bare_label_adds_nothing (mappings : dict) (p : str) (f : Field) :
  strip p = label f -> scan_paragraph mappings p = mappings.
Proof.
  intros H. rewrite scan_paragraph_recognize. unfold recognize.
  cbv zeta. rewrite H. destruct f; reflexivity.
Qed.

Lemma bare_label_adds_nothing_witness :
  scan_paragraph [(phone_original, lit "1")] (lit "  Phone:  ")
  = [(phone_original, lit "1")].
Proof.
  apply (bare_label_adds_nothing
           [(phone_original, lit "1")] (lit "  Phone:  ") Phone).
  reflexivity.
Defined.

(** X17. White space around a record does not matter to the scan:
    a record and its trimmed text are scanned alike. *)
Theorem surrounding_space_ignored (mappings : dict) (p : str) :
  scan_paragraph mappings (strip p) = scan_paragraph mappings p.
Proof.
  unfold scan_paragraph. cbv zeta. rewrite strip_idempotent. reflexivity.
Qed.

End MapProperties.

(* ===================================================================== *)
(** ** Runs that raise *)
(* ===================================================================== *)

Section DiagnosisFacts.
Import PyStr PyDict Index Subst Resolver Recon Spec Diagnosis.

Lemma Drawn_Partial (sz : Q * Q) (ops more : list Op) (st : State) :
  Drawn sz ops st -> Partial sz (ops ++ more) st.
Proof. intros H. exists ops, more. split; [exact H | reflexivity]. Qed.

Lemma Partial_app (sz : Q * Q) (full more : list Op) (st : State) :
  Partial sz full st -> Partial sz (full ++ more) st.
Proof.
  intros [ops [rest [H ->]]]. exists ops, (rest ++ more).
  split; [exact H | apply eq_sym, app_assoc].
Qed.

(** A loop whose body appends draws; when it raises, some element is
    the cause and the draws made are a beginning of those of the whole
    loop. *)
Lemma triple_for_each {A} (body : A -> M unit) (f : A -> list Op)
    (C : A -> Exn -> Prop) (sz : Q * Q) (l : list A) :
  (forall a, In a l -> forall ops,
     triple (Drawn sz ops) (body a)
            (fun _ => Drawn sz (ops ++ f a))
            (fun e st => C a e /\ Partial sz (ops ++ f a) st)) ->
  forall ops,
    triple (Drawn sz ops) (for_each l body)
           (fun _ => Drawn sz (ops ++ flat_map f l))
           (fun e st => (exists a, In a l /\ C a e) /\
                        Partial sz (ops ++ flat_map f l) st).
Proof.
  induction l as [|a l IH]; intros Hbody ops st Hst.
  - simpl. rewrite app_nil_r. exact Hst.
  - cbn [for_each flat_map]. unfold bind.
    pose proof (Hbody a (or_introl eq_refl) ops st Hst) as Ha.
    destruct (body a st) as [[[]|e] st1].
    + pose proof (IH (fun b Hb => Hbody b (or_intror Hb)) _ st1 Ha) as Hl.
      destruct (for_each l body st1) as [[[]|e] st2].
      * rewrite app_assoc. exact Hl.
      * destruct Hl as [[b [Hb Cb]] Hp]. split.
        -- exists b. split; [right; exact Hb | exact Cb].
        -- rewrite app_assoc. exact Hp.
    + destruct Ha as [Ca Hp]. split.
      * exists a. split; [left; reflexivity | exact Ca].
      * rewrite app_assoc. apply Partial_app, Hp.
Qed.

Lemma process_span_triple (w : World) (mappings : dict) (s : Span)
    (sz : Q * Q) (ops : list Op) :
  triple (Drawn sz ops) (process_span w mappings s)
         (fun _ => Drawn sz (ops ++ span_ops mappings s))
         (fun e st => (e = DrawError /\ span_fails w mappings s) /\
                      Partial sz (ops ++ span_ops mappings s) st).
Proof.
  intros st [xs ->]. unfold process_span, span_ops, span_fails. cbv zeta.
  destruct (blank (text s)) eqn:Eb.
  - simpl. rewrite app_nil_r. exists xs. reflexivity.
  - unfold insert_text. destruct (insert_text_ok w _ _) eqn:Eo.
    + simpl. exists xs. reflexivity.
    + simpl. split; [split; [reflexivity | split; reflexivity]|].
      apply Drawn_Partial. exists xs. reflexivity.
Qed.

Lemma text_phase_triple (w : World) (mappings : dict)
    (blocks : list Block) (sz : Q * Q) (ops : list Op) :
  triple (Drawn sz ops) (for_each blocks (process_block w mappings))
         (fun _ => Drawn sz (ops ++ text_ops mappings blocks))
         (fun e st =>
            (e = DrawError /\
             exists s, In s (all_spans blocks) /\
                       span_fails w mappings s) /\
            Partial sz (ops ++ text_ops mappings blocks) st).
Proof.
  unfold text_ops, all_spans. rewrite flat_map_flat_map.
  intros st Hst.
  pose proof (triple_for_each
                (process_block w mappings)
                (fun b => flat_map (span_ops mappings) (block_spans b))
                (fun b e => e = DrawError /\
                            exists s, In s (block_spans b) /\
                                      span_fails w mappings s)
                sz blocks) as H.
  assert (Hb : forall b, In b blocks -> forall ops',
             triple (Drawn sz ops') (process_block w mappings b)
               (fun _ => Drawn sz (ops' ++ flat_map (span_ops mappings)
                                                    (block_spans b)))
               (fun e st' =>
                  (e = DrawError /\
                   exists s, In s (block_spans b) /\
                             span_fails w mappings s) /\
                  Partial sz (ops' ++ flat_map (span_ops mappings)
                                               (block_spans b)) st')).
  { intros b _ ops' st' Hst'. unfold process_block, block_spans.
    destruct (lines b) as [ls|].
    - rewrite flat_map_flat_map.
      pose proof (triple_for_each
                    (fun line => for_each (spans line)
                                          (process_span w mappings))
                    (fun line => flat_map (span_ops mappings) (spans line))
                    (fun line e => e = DrawError /\
                                   exists s, In s (spans line) /\
                                             span_fails w mappings s)
                    sz ls) as Hl.
      assert (Hline : forall line, In line ls -> forall ops2,
                 triple (Drawn sz ops2)
                   (for_each (spans line) (process_span w mappings))
                   (fun _ => Drawn sz (ops2 ++ flat_map (span_ops mappings)
                                                        (spans line)))
                   (fun e st2 =>
                      (e = DrawError /\
                       exists s, In s (spans line) /\
                                 span_fails w mappings s) /\
                      Partial sz (ops2 ++ flat_map (span_ops mappings)
                                                   (spans line)) st2)).
      { intros line _ ops2 st2 Hst2.
        pose proof (triple_for_each
                      (process_span w mappings) (span_ops mappings)
                      (fun s e => e = DrawError /\ span_fails w mappings s)
                      sz (spans line)
                      (fun s _ ops3 => process_span_triple w mappings s
                                                           sz ops3)
                      ops2 st2 Hst2) as Hs.
        destruct (for_each (spans line) _ st2) as [[[]|e] st3];
          [exact Hs|].
        destruct Hs as [[s [Hin [-> Hf]]] Hp].
        split; [split; [reflexivity | exists s; auto] | exact Hp]. }
      specialize (Hl Hline ops' st' Hst').
      destruct (for_each ls _ st') as [[[]|e] st3]; [exact Hl|].
      destruct Hl as [[line [Hin [-> [s [Hs Hf]]]]] Hp].
      split; [|exact Hp]. split; [reflexivity|].
      exists s. split; [|exact Hf].
      apply in_flat_map. exists line. auto.
    - simpl. rewrite app_nil_r. exact Hst'. }
  specialize (H Hb ops st Hst).
  destruct (for_each blocks _ st) as [[[]|e] st1]; [exact H|].
  destruct H as [[b [Hin [-> [s [Hs Hf]]]]] Hp].
  split; [|exact Hp]. split; [reflexivity|].
  exists s. split; [|exact Hf].
  apply in_flat_map. exists b. auto.
Qed.

Lemma copy_image_triple (w : World) (doc : Document) (p : Page)
    (img : ImageItem) (sz : Q * Q) (ops : list Op) :
  triple (Drawn sz ops) (copy_image w doc p img)
         (fun _ => Drawn sz (ops ++ item_ops doc p img))
         (fun e st => image_fails w doc p img e /\
                      Partial sz (ops ++ item_ops doc p img) st).
Proof.
  intros st [xs ->].
  unfold copy_image, extract, bind, update, item_ops, image_fails,
    readable, image_refused. cbn.
  destruct (extract_image doc (xref img)) as [b|] eqn:Eb; cbn.
  2: { split.
       - left. split; [reflexivity|]. intros [[b' H] _]. discriminate.
       - apply Drawn_Partial. eexists. reflexivity. }
  destruct (get_image_rects p (xref img)) as [rs|] eqn:Er; cbn.
  2: { split.
       - left. split; [reflexivity|]. intros [_ [rs' H]]. discriminate.
       - apply Drawn_Partial. eexists. reflexivity. }
  assert (Hr : forall r, In r rs -> forall ops',
             triple (Drawn sz ops') (insert_image w r b)
               (fun _ => Drawn sz (ops' ++ [InsertImage r b]))
               (fun e st' =>
                  (e = DrawError /\ insert_image_ok w r b = false) /\
                  Partial sz (ops' ++ [InsertImage r b]) st')).
  { intros r _ ops' st' [xs' ->]. unfold insert_image.
    destruct (insert_image_ok w r b) eqn:Eo; simpl.
    - eexists. reflexivity.
    - split; [split; reflexivity|].
      apply Drawn_Partial. eexists. reflexivity. }
  pose proof (triple_for_each
                (fun r => insert_image w r b)
                (fun r => [InsertImage r b])
                (fun r e => e = DrawError /\ insert_image_ok w r b = false)
                sz rs Hr ops _ (ex_intro _ (xs ++ [xref img]) eq_refl))
    as H.
  rewrite flat_map_single in H.
  destruct (for_each rs _ _) as [[[]|e] st2]; [exact H|].
  destruct H as [[r [Hin [-> Ho]]] Hp]. split; [|exact Hp].
  right. split; [reflexivity|]. exists b, rs, r. auto.
Qed.

Lemma image_phase_triple (w : World) (doc : Document) (p : Page)
    (sz : Q * Q) (ops : list Op) :
  triple (Drawn sz ops)
         (for_each (get_images p) (copy_image w doc p))
         (fun _ => Drawn sz (ops ++ image_ops doc p))
         (fun e st =>
            (exists img, In img (get_images p) /\
                         image_fails w doc p img e) /\
            Partial sz (ops ++ image_ops doc p) st).
Proof.
  unfold image_ops. apply triple_for_each.
  intros img _ ops'. apply copy_image_triple.
Qed.

Lemma Partial_content (sz : Q * Q) (full : list Op) (st : State) :
  Partial sz full st ->
  original_open st = true /\ new_open st = true /\
  exists rest, full = content st ++ rest.
Proof.
  intros [ops [rest [[xs ->] ->]]]. repeat split. exists rest. reflexivity.
Qed.

(** A run that raises: why, with which documents open, and with what
    on the page. *)
Lemma reconstruct_diagnosis (w : World) :
  triple (fun st => st = initial) (reconstruct_with_exact_positions w)
    (fun _ _ => True)
    (fun e st' =>
       Cause w e /\ left_open e st' /\
       forall paragraphs doc p blocks,
         enhanced_modified_docx w = Some paragraphs ->
         enhanced_sample_pdf w = Some doc ->
         nth_error (pages doc) 0 = Some p ->
         get_text p = Some blocks ->
         exists rest,
           text_ops (get_modifications paragraphs) blocks
           ++ image_ops doc p = content st' ++ rest).
Proof.
  intros st ->.
  unfold reconstruct_with_exact_positions.
  cbv [bind of_option ret raise update open_original load_page open_new
       new_page].
  destruct (enhanced_modified_docx w) as [paragraphs|] eqn:Ed.
  2: { split; [left; exact Ed|]. split; [split; reflexivity|].
       intros; eexists; reflexivity. }
  destruct (enhanced_sample_pdf w) as [doc|] eqn:Es.
  2: { split; [right; exact Es|]. split; [split; reflexivity|].
       intros; eexists; reflexivity. }
  cbv beta iota.
  destruct (nth_error (pages doc) 0) as [p|] eqn:Ep.
  2: { split.
       - exists doc. split; [exact Es|].
         destruct (pages doc); [reflexivity | discriminate].
       - split; [split; reflexivity|]. intros; eexists; reflexivity. }
  cbv beta iota.
  destruct (get_text p) as [blocks|] eqn:Et.
  2: { split.
       - exists doc, p. auto.
       - split; [split; reflexivity|]. intros; eexists; reflexivity. }
  cbv [initial original_open new_open page_size content extracted saved].
  assert (Hfull : forall (st' : State) full,
             full = text_ops (get_modifications paragraphs) blocks
                    ++ image_ops doc p ->
             (exists rest, full = content st' ++ rest) ->
             forall paragraphs' doc' p' blocks',
               Some paragraphs = Some paragraphs' ->
               Some doc = Some doc' ->
               nth_error (pages doc') 0 = Some p' ->
               get_text p' = Some blocks' ->
               exists rest,
                 text_ops (get_modifications paragraphs') blocks'
                 ++ image_ops doc' p' = content st' ++ rest).
  { intros st' full -> Hrest paragraphs' doc' p' blocks' H1 H2 H3 H4.
    injection H1 as <-. injection H2 as <-.
    rewrite Ep in H3. injection H3 as <-.
    rewrite Et in H4. injection H4 as <-. exact Hrest. }
  pose proof (text_phase_triple w (get_modifications paragraphs) blocks
                (width p, height p) [] _ (ex_intro _ [] eq_refl)) as Ht.
  destruct (for_each blocks _ _) as [[[]|e] st1].
  2: { destruct Ht as [[-> [s [Hs Hf]]] Hp]. cbn [app] in Hp.
       apply Partial_app with (more := image_ops doc p) in Hp.
       apply Partial_content in Hp. destruct Hp as [Ho [Hn Hrest]].
       split; [|split; [split; assumption | eapply Hfull; eauto]].
       exists paragraphs, doc, p, blocks. repeat split; auto.
       left. exists s. auto. }
  cbn [app] in Ht.
  pose proof (image_phase_triple w doc p (width p, height p)
                (text_ops (get_modifications paragraphs) blocks)
                st1 Ht) as Hi.
  destruct (for_each (get_images p) _ _) as [[[]|e] st2].
  2: { destruct Hi as [[img [Hin Hfail]] Hp].
       apply Partial_content in Hp. destruct Hp as [Ho [Hn Hrest]].
       destruct Hfail as [[-> Hr] | [-> Hr]].
       - split; [|split; [split; assumption | eapply Hfull; eauto]].
         exists doc, p, img. auto.
       - split; [|split; [split; assumption | eapply Hfull; eauto]].
         exists paragraphs, doc, p, blocks. repeat split; auto.
         right. exists img. auto. }
  destruct Hi as [xs ->].
  unfold save. destruct (save_ok w) eqn:Esave; [exact I|].
  cbv [raise]. split; [exact Esave|]. split; [split; reflexivity|].
  apply (Hfull (mkState true true (Some (width p, height p))
                        (text_ops (get_modifications paragraphs) blocks
                         ++ image_ops doc p) xs None)
               _ eq_refl).
  exists []. cbn [content]. rewrite app_nil_r. reflexivity.
Qed.

Lemma raised_diagnosis (w : World) (e : Exn) (st' : State) :
  reconstruct_with_exact_positions w initial = (Raise e, st') ->
  Cause w e /\ left_open e st' /\
  forall paragraphs doc p blocks,
    enhanced_modified_docx w = Some paragraphs ->
    enhanced_sample_pdf w = Some doc ->
    nth_error (pages doc) 0 = Some p ->
    get_text p = Some blocks ->
    exists rest,
      text_ops (get_modifications paragraphs) blocks
      ++ image_ops doc p = content st' ++ rest.
Proof.
  intros H. pose proof (reconstruct_diagnosis w initial eq_refl) as S.
  rewrite H in S. exact S.
Qed.

End DiagnosisFacts.

Section RunProperties.
Import PyStr PyDict Index Subst Resolver Recon Spec Samples Diagnosis.

(** X10. A run that returns has created the output page with the width
    and height of the source page, has drawn all the text before the
    first image, and has saved exactly what it drew. *)
Theorem returned_page_saved_as_drawn (w : World)
    (paragraphs : list str) (doc : Document) (p : Page)
    (blocks : list Block) (st' : State) :
  enhanced_modified_docx w = Some paragraphs ->
  enhanced_sample_pdf w = Some doc ->
  nth_error (pages doc) 0 = Some p ->
  get_text p = Some blocks ->
  reconstruct_with_exact_positions w initial = (Ok tt, st') ->
  page_size st' = Some (width p, height p) /\
  content st' = text_draws (content st') ++ image_draws (content st') /\
  saved st' = Some (content st').
Proof.
  intros Hd Hs Hp Ht Hrun.
  destruct (reconstruct_returns w st' Hrun)
    as [paragraphs' [doc' [p' [blocks' [Hd' [Hs' [Hp' [Ht' [_ ->]]]]]]]]].
  rewrite Hd in Hd'. injection Hd' as <-.
  rewrite Hs in Hs'. injection Hs' as <-.
  rewrite Hp in Hp'. injection Hp' as <-.
  rewrite Ht in Ht'. injection Ht' as <-.
  cbn [page_size content saved].
  rewrite text_draws_page, image_draws_page. repeat split.
Qed.

Lemma returned_page_saved_as_drawn_witness :
  page_size (snd (reconstruct_with_exact_positions sample_world initial))
  = Some (595 # 1, 842 # 1).
Proof.
  assert (H : reconstruct_with_exact_positions sample_world initial =
              (Ok tt, snd (reconstruct_with_exact_positions
                             sample_world initial)))
    by (vm_compute; reflexivity).
  apply (proj1 (returned_page_saved_as_drawn sample_world
                  [lit "Address: 42 New Ave"] sample_doc sample_page
                  sample_blocks _ eq_refl eq_refl eq_refl eq_refl H)).
Defined.

(** X11. In a run that returns, [extract_image] has been called once
    for each entry of the page's image list, in the order of the list,
    and the image draws are, one for one and in order, the rectangles
    of each entry with the bytes extracted for it; an image listed
    twice is therefore drawn twice at each of its rectangles. *)
Theorem images_copied_per_list_entry (w : World)
    (paragraphs : list str) (doc : Document) (p : Page)
    (blocks : list Block) (st' : State) :
  enhanced_modified_docx w = Some paragraphs ->
  enhanced_sample_pdf w = Some doc ->
  nth_error (pages doc) 0 = Some p ->
  get_text p = Some blocks ->
  reconstruct_with_exact_positions w initial = (Ok tt, st') ->
  extracted st' = List.map xref (get_images p) /\
  Forall2 (replays doc) (listed_placements p)
          (image_draws (content st')).
Proof.
  intros Hd Hs Hp Ht Hrun.
  destruct (returned_content _ _ _ _ _ _ Hd Hs Hp Ht Hrun)
    as [Hc [Hx [Hr _]]].
  split; [exact Hx|].
  rewrite Hc, image_draws_page. apply replays_items, Hr.
Qed.

Lemma images_copied_per_list_entry_witness :
  extracted (snd (reconstruct_with_exact_positions twice_world initial))
  = [7%Z; 7%Z].
Proof.
  assert (H : reconstruct_with_exact_positions twice_world initial =
              (Ok tt, snd (reconstruct_with_exact_positions
                             twice_world initial)))
    by (vm_compute; reflexivity).
  apply (proj1 (images_copied_per_list_entry twice_world
                  [] twice_doc twice_page sample_blocks _
                  eq_refl eq_refl eq_refl eq_refl H)).
Defined.

(** X12. A run raises only for a cause outside the program: a missing
    input file, a source without a first page, text that cannot be
    read, an image whose bytes or rectangles cannot be read, a draw
    that the output page refuses for a span that is not blank or for a
    rectangle of a listed image, or an output file that cannot be
    saved. *)
Theorem raise_has_cause (w : World) (e : Exn) (st' : State) :
  reconstruct_with_exact_positions w initial = (Raise e, st') ->
  Cause w e.
Proof. intros H. apply (raised_diagnosis w e st' H). Qed.

Lemma raise_has_cause_witness : save_ok unwritable_world = false.
Proof.
  apply (raise_has_cause unwritable_world SaveError
           (snd (reconstruct_with_exact_positions unwritable_world
                                                  initial))).
  vm_compute. reflexivity.
Defined.

(** X13. When both input files are there, the source has a first page
    whose text and images can be read, and the output document accepts
    every draw and the save, the run returns. *)
Theorem run_returns_when_calls_succeed (w : World)
    (paragraphs : list str) (doc : Document) (p : Page)
    (blocks : list Block) :
  enhanced_modified_docx w = Some paragraphs ->
  enhanced_sample_pdf w = Some doc ->
  nth_error (pages doc) 0 = Some p ->
  get_text p = Some blocks ->
  Forall (readable doc p) (get_images p) ->
  output_accepts w (get_modifications paragraphs) doc p blocks ->
  exists st', reconstruct_with_exact_positions w initial = (Ok tt, st').
Proof.
  intros Hd Hs Hp Ht Hr [Hspans [Himgs Hsave]].
  destruct (reconstruct_with_exact_positions w initial)
    as [[[]|e] st'] eqn:Hrun; [exists st'; reflexivity|].
  exfalso. destruct (raised_diagnosis w e st' Hrun) as [Hc _].
  destruct e; cbn [Cause] in Hc.
  - destruct Hc; congruence.
  - destruct Hc as [doc' [Hs' Hnil]].
    rewrite Hs in Hs'. injection Hs' as <-.
    rewrite Hnil in Hp. discriminate.
  - destruct Hc as [doc' [p' [Hs' [Hp' Ht']]]].
    rewrite Hs in Hs'. injection Hs' as <-.
    rewrite Hp in Hp'. injection Hp' as <-. congruence.
  - destruct Hc as [doc' [p' [img [Hs' [Hp' [Hin Hnr]]]]]].
    rewrite Hs in Hs'. injection Hs' as <-.
    rewrite Hp in Hp'. injection Hp' as <-.
    rewrite Forall_forall in Hr. exact (Hnr (Hr img Hin)).
  - destruct Hc as [paragraphs' [doc' [p' [blocks'
                      [Hd' [Hs' [Hp' [Ht' Hor]]]]]]]].
    rewrite Hd in Hd'. injection Hd' as <-.
    rewrite Hs in Hs'. injection Hs' as <-.
    rewrite Hp in Hp'. injection Hp' as <-.
    rewrite Ht in Ht'. injection Ht' as <-.
    destruct Hor as [[s [Hin Hf]] | [img [Hin Hf]]].
    + exact (Hspans s Hin Hf).
    + exact (Himgs img Hin Hf).
  - congruence.
Qed.

Lemma run_returns_when_calls_succeed_witness :
  exists st',
    reconstruct_with_exact_positions sample_world initial = (Ok tt, st').
Proof.
  apply (run_returns_when_calls_succeed sample_world
           [lit "Address: 42 New Ave"] sample_doc sample_page
           sample_blocks eq_refl eq_refl eq_refl eq_refl).
  - constructor; [|constructor].
    split; [exists png | exists [R1; R2]]; reflexivity.
  - split; [|split; [|reflexivity]].
    + intros s _ [_ H]. exact (Bool.diff_true_false H).
    + intros img _ [b [rs [r [_ [_ [_ H]]]]]].
      exact (Bool.diff_true_false H).
Defined.

(** X14. A run that raises has closed nothing: when an input file is
    missing no document has been opened; when the source has no first
    page the source is left open; after any other failure the source
    and the output document are both left open. *)
Theorem raise_leaves_documents_as_opened (w : World) (e : Exn)
    (st' : State) :
  reconstruct_with_exact_positions w initial = (Raise e, st') ->
  left_open e st'.
Proof. intros H. apply (raised_diagnosis w e st' H). Qed.

Lemma raise_leaves_documents_as_opened_witness :
  original_open
    (snd (reconstruct_with_exact_positions unwritable_world initial))
  = true /\
  new_open
    (snd (reconstruct_with_exact_positions unwritable_world initial))
  = true.
Proof.
  apply (raise_leaves_documents_as_opened unwritable_world SaveError).
  vm_compute. reflexivity.
Defined.

(** X15. What is on the output page when a run raises is a beginning
    of what the run would have drawn had it returned: the draws made
    before the failure are the right ones. *)
Theorem raise_leaves_beginning_of_page (w : World)
    (paragraphs : list str) (doc : Document) (p : Page)
    (blocks : list Block) (e : Exn) (st' : State) :
  enhanced_modified_docx w = Some paragraphs ->
  enhanced_sample_pdf w = Some doc ->
  nth_error (pages doc) 0 = Some p ->
  get_text p = Some blocks ->
  reconstruct_with_exact_positions w initial = (Raise e, st') ->
  exists rest,
    text_ops (get_modifications paragraphs) blocks ++ image_ops doc p
    = content st' ++ rest.
Proof.
  intros Hd Hs Hp Ht Hrun.
  destruct (raised_diagnosis w e st' Hrun) as [_ [_ H]].
  apply H; assumption.
Qed.

Lemma raise_leaves_beginning_of_page_witness :
  exists rest,
    text_ops (get_modifications [lit "Address: 42 New Ave"]) sample_blocks
    ++ image_ops sample_doc sample_page
    = content (snd (reconstruct_with_exact_positions unwritable_world
                                                     initial)) ++ rest.
Proof.
  apply (raise_leaves_beginning_of_page unwritable_world
           [lit "Address: 42 New Ave"] sample_doc sample_page
           sample_blocks SaveError _ eq_refl eq_refl eq_refl eq_refl).
  vm_compute. reflexivity.
Defined.

(** X16. In a run that returns, a span that is not blank and in whose
    text no key of the map occurs is drawn with its own text, at the
    top-left corner of its bounding box: the edits leave the other
    spans alone. *)
Theorem untouched_span_drawn_as_is (w : World)
    (paragraphs : list str) (doc : Document) (p : Page)
    (blocks : list Block) (st' : State) (s : Span) :
  enhanced_modified_docx w = Some paragraphs ->
  enhanced_sample_pdf w = Some doc ->
  nth_error (pages doc) 0 = Some p ->
  get_text p = Some blocks ->
  reconstruct_with_exact_positions w initial = (Ok tt, st') ->
  In s (all_spans blocks) ->
  blank (text s) = false ->
  no_key_occurs (text s) (get_modifications paragraphs) ->
  In (InsertText (x0 (bbox s), y0 (bbox s)) (text s)
                 (map_font (font s)) (size s)
                 (convert_color (color s)))
     (content st').
Proof.
  intros Hd Hs Hp Ht Hrun Hin Hb Hno.
  destruct (returned_content _ _ _ _ _ _ Hd Hs Hp Ht Hrun) as [-> _].
  apply in_or_app. left. unfold text_ops. apply in_flat_map.
  exists s. split; [exact Hin|].
  unfold span_ops. rewrite Hb, (apply_modifications_absent _ _ Hno).
  left. reflexivity.
Qed.

Lemma untouched_span_drawn_as_is_witness :
  In (InsertText (50 # 1, 20 # 1) (lit "Enhanced Sample Document")
                 helvetica_bold (18 # 1) dark_blue)
     (content (snd (reconstruct_with_exact_positions sample_world
                                                     initial))).
Proof.
  assert (H : reconstruct_with_exact_positions sample_world initial =
              (Ok tt, snd (reconstruct_with_exact_positions
                             sample_world initial)))
    by (vm_compute; reflexivity).
  apply (untouched_span_drawn_as_is sample_world
           [lit "Address: 42 New Ave"] sample_doc sample_page
           sample_blocks _ title_span eq_refl eq_refl eq_refl eq_refl H).
  - left. reflexivity.
  - reflexivity.
  - intros old new Hin. vm_compute in Hin.
    destruct Hin as [Hin | []]. injection Hin as <- <-.
    vm_compute. reflexivity.
Defined.

End RunProperties.
